(** * Face tracking: detection/track association of inaFaceGender

    A shallow embedding of [inaFaceGender/face_tracking.py]: the classes
    [Tracker], [TrackerList] and [TrackerDetector].  Python objects are
    records, methods are computations in a small state-and-exception
    monad, and the [dlib] primitives the module consumes are an interface
    (a type class) of which a scripted instance is given at the end. *)

From Stdlib Require Import String List ZArith QArith Qround Lqa Lia Bool.
Import ListNotations.
Local Open Scope Z_scope.

Set Implicit Arguments.

(* ===================================================================== *)
(** ** Python run-time: exceptions, outcomes, dictionaries *)
(* ===================================================================== *)

Inductive exn : Type :=
| NameError (name : string)
| AttributeError (attr : string)
| ZeroDivisionError
| KeyError (key : Z)
| IndexError
| ValueError.

Inductive outcome (A : Type) : Type :=
| Ret (a : A)
| Raise (e : exn).
Arguments Ret {A} a.
Arguments Raise {A} e.

(** [x < y] and [x > y] on Python numbers, [x == 0] for the divisor test. *)
Definition Qlt_bool (x y : Q) : bool := negb (Qle_bool y x).

(** Python's [int(x)] on a float: truncation towards zero. *)
Definition py_int (x : Q) : Z := Z.quot (Qnum x) (Zpos (Qden x)).

(** Python's true division [x / y]. *)
Definition py_div (x y : Q) : outcome Q :=
  if Qeq_bool y 0 then Raise ZeroDivisionError else Ret (x / y)%Q.

(** Python's [x % y] on integers. *)
Definition py_mod (x y : Z) : outcome Z :=
  if y =? 0 then Raise ZeroDivisionError else Ret (x mod y).

(** A [dict] keeps its keys in insertion order; assigning to a key that is
    present replaces the value in place. *)
Section Dict.
Variable V : Type.

Definition dict : Type := list (Z * V).

Definition dict_keys (m : dict) : list Z := map fst m.

Fixpoint dict_get (k : Z) (m : dict) : option V :=
  match m with
  | [] => None
  | (k', v) :: r => if k =? k' then Some v else dict_get k r
  end.

Fixpoint dict_set (k : Z) (v : V) (m : dict) : dict :=
  match m with
  | [] => [(k, v)]
  | (k', v') :: r =>
      if k =? k' then (k, v) :: r else (k', v') :: dict_set k v r
  end.

Fixpoint dict_del (k : Z) (m : dict) : dict :=
  match m with
  | [] => []
  | (k', v') :: r => if k =? k' then r else (k', v') :: dict_del k r
  end.
End Dict.

(** [list.remove(x)]: drops the first occurrence. *)
Fixpoint list_remove (x : Z) (l : list Z) : list Z :=
  match l with
  | [] => []
  | y :: r => if x =? y then r else y :: list_remove x r
  end.

(** [np.argmax]: the index of the first maximal element. *)
Fixpoint argmax_from (best : Q) (bi idx : nat) (l : list Q) : nat :=
  match l with
  | [] => bi
  | x :: r =>
      if Qlt_bool best x then argmax_from x idx (S idx) r
      else argmax_from best bi (S idx) r
  end.

Definition argmax (l : list Q) : option nat :=
  match l with
  | [] => None
  | x :: r => Some (argmax_from x 0%nat 1%nat r)
  end.

(** The names bound at module level in [face_tracking.py]. *)
Definition module_globals : list string :=
  ["dlib"; "np"; "Tracker"; "TrackerList"; "TrackerDetector"]%string.

Definition is_global (x : string) : bool :=
  existsb (String.eqb x) module_globals.

(* ===================================================================== *)
(** ** The state-and-exception monad *)
(* ===================================================================== *)

(** A computation over an object of type [S] and a log of type [L]; a
    raised exception keeps the mutations made before it. *)
Definition M (L S A : Type) : Type := S * L -> outcome A * (S * L).

Definition ret {L S A} (a : A) : M L S A := fun s => (Ret a, s).
Definition raise {L S A} (e : exn) : M L S A := fun s => (Raise e, s).
Definition bind {L S A B} (m : M L S A) (k : A -> M L S B) : M L S B :=
  fun s => match m s with
           | (Ret a, s') => k a s'
           | (Raise e, s') => (Raise e, s')
           end.
Definition gets {L S A} (f : S -> A) : M L S A := fun s => (Ret (f (fst s)), s).
Definition modify {L S} (f : S -> S) : M L S unit :=
  fun s => (Ret tt, (f (fst s), snd s)).
Definition emit {L S} (e : L) : M (list L) S unit :=
  fun s => (Ret tt, (fst s, snd s ++ [e])).
Definition lift {L S A} (o : outcome A) : M L S A := fun s => (o, s).

(** A name that is not a parameter or a local is looked up among the
    module globals. *)
Definition load_global {L S} (x : string) : M L S unit :=
  if is_global x then ret tt else raise (NameError x).

Declare Scope py_scope.
Delimit Scope py_scope with py.
Notation "x <- m ;; k" := (bind m (fun x => k))
  (at level 61, m at next level, right associativity) : py_scope.
Notation "m ;; k" := (bind m (fun _ => k))
  (at level 61, right associativity) : py_scope.
Local Open Scope py_scope.

(** [for x in l: body x] *)
Fixpoint for_each {L S X} (l : list X) (body : X -> M L S unit) : M L S unit :=
  match l with
  | [] => ret tt
  | x :: r => body x ;; for_each r body
  end.

(** [[f x for x in l]] *)
Fixpoint comprehension {L S X A} (l : list X) (f : X -> M L S A) : M L S (list A) :=
  match l with
  | [] => ret []
  | x :: r => a <- f x ;; t <- comprehension r f ;; ret (a :: t)
  end.

(** [stable R m]: every run of [m], returning or raising, moves the
    object along [R]. *)
Definition stable {L S A} (R : S -> S -> Prop) (m : M L S A) : Prop :=
  forall s, R (fst s) (fst (snd (m s))).

(* ===================================================================== *)
(** ** What the module consumes: frames and dlib *)
(* ===================================================================== *)

(** [dlib.rectangle], built from four integers. *)
Record rectangle : Type := Rectangle { left : Z; top : Z; right : Z; bottom : Z }.

(** [dlib.drectangle], what [get_position()] returns. *)
Record drectangle : Type := DRectangle { dleft : Q; dtop : Q; dright : Q; dbottom : Q }.

(** The frame type, the rectangle arithmetic and the correlation tracker
    are not defined by the module; they are the operations of this
    interface.  [frame_ne] is [!=] on two frames, taken to answer a
    boolean, and [shape] is [frame.shape]; [ct_update] is
    [t.update(frame)], [ct_update_guess] is [t.update(frame, bb)]. *)
Class Extern : Type := {
  frame : Type;
  frame_ne : frame -> frame -> bool;
  shape : frame -> Z * Z * Z;
  rect_area : rectangle -> Z;
  rect_intersect : rectangle -> rectangle -> rectangle;
  drect_area : drectangle -> Q;
  ctracker : Type;
  correlation_tracker : ctracker;
  ct_start_track : ctracker -> frame -> rectangle -> ctracker;
  ct_update : ctracker -> frame -> ctracker * Q;
  ct_update_guess : ctracker -> frame -> rectangle -> ctracker * Q;
  ct_get_position : ctracker -> drectangle
}.

(** One entry of the log per call of a primitive that mutates or costs:
    the tracker primitive of the track [tid], and the face detector. *)
Inductive event `{Extern} : Type :=
| EvStart (tid : Z) (f : frame) (bb : rectangle)
| EvUpdate (tid : Z) (f : frame)
| EvProbe (tid : Z) (f : frame) (bb : rectangle)
| EvDetect (f : frame).

Definition trace `{Extern} : Type := list event.

Definition is_probe `{Extern} (e : event) : bool :=
  match e with EvProbe _ _ _ => true | _ => false end.

(* ===================================================================== *)
(** ** class Tracker *)
(* ===================================================================== *)

Module Tracker.
Section WithExtern.
Context `{E : Extern}.

(** [update_val] is only set by [update]; it is absent on a tracker
    that never propagated. *)
Record self : Type := Make {
  last_frame : frame;
  t : ctracker;
  tid : Z;
  update_val : option Q
}.

Definition init {S} (fr : frame) (bb : rectangle) (id : Z) : M trace S self :=
  emit (EvStart id fr bb) ;;
  ret {| last_frame := fr;
         t := ct_start_track correlation_tracker fr bb;
         tid := id;
         update_val := None |}.

Definition intersect_area (s : self) (bb : rectangle) : Z :=
  let pos := ct_get_position (t s) in
  let tmp := Rectangle (py_int (dleft pos)) (py_int (dtop pos))
                       (py_int (dright pos)) (py_int (dbottom pos)) in
  rect_area (rect_intersect bb tmp).

Definition iou (s : self) (bb : rectangle) : outcome Q :=
  let inter := intersect_area s bb in
  py_div (inject_Z inter)
         (inject_Z inter + drect_area (ct_get_position (t s))
          + inject_Z (rect_area bb))%Q.

Definition update (fr : frame) : M trace self Q :=
  ne <- gets (fun s => frame_ne fr (last_frame s)) ;;
  (if ne : bool then
     s <- gets (fun s => s) ;;
     emit (EvUpdate (tid s) fr) ;;
     modify (fun s => let r := ct_update (t s) fr in
                      {| last_frame := fr; t := fst r; tid := tid s;
                         update_val := Some (snd r) |})
   else ret tt) ;;
  v <- gets update_val ;;
  match v with
  | Some q => ret q
  | None => raise (AttributeError "update_val")
  end.

Definition tracking_quality (fr : frame) (bb : rectangle) : M trace self Q :=
  s <- gets (fun s => s) ;;
  emit (EvProbe (tid s) fr bb) ;;
  emit (EvStart (tid s) fr bb) ;;
  let r := ct_update_guess (t s) fr bb in
  modify (fun s => {| last_frame := last_frame s;
                      t := ct_start_track (fst r) fr bb;
                      tid := tid s; update_val := update_val s |}) ;;
  ret (snd r).

(** The body reads [frame.shape], and [frame] is neither a parameter
    nor a local of [is_in_frame]: the name is looked up among the module
    globals, where it is not bound.  The test that follows the look-up is
    written on the shape passed in. *)
Definition is_in_frame (s : self) (frame_shape : Z * Z * Z) : outcome bool :=
  if is_global "frame" then
    let '(fheight, fwidth, _) := frame_shape in
    let pos := ct_get_position (t s) in
    Ret (Qlt_bool 0 (dright pos) && Qlt_bool (dleft pos) (inject_Z fwidth)
         && Qlt_bool (dtop pos) (inject_Z fheight) && Qlt_bool 0 (dbottom pos))
  else Raise (NameError "frame").
End WithExtern.
End Tracker.

(* ===================================================================== *)
(** ** class TrackerList *)
(* ===================================================================== *)

Module TrackerList.
Section WithExtern.
Context `{E : Extern}.

Record self : Type := Make { d : dict Tracker.self; i : Z }.

Definition init : self := {| d := []; i := 0 |}.

(** [self.d[k].method(...)] for a method that mutates the tracker. *)
Definition at_key {A} (k : Z) (m : M trace Tracker.self A) : M trace self A :=
  fun s =>
    match dict_get k (d (fst s)) with
    | None => (Raise (KeyError k), s)
    | Some trk =>
        let r := m (trk, snd s) in
        (fst r, ({| d := dict_set k (fst (snd r)) (d (fst s)); i := i (fst s) |},
                 snd (snd r)))
    end.

(** [self.d[k].method(...)] for a method that only reads. *)
Definition read_key {A} (k : Z) (f : Tracker.self -> outcome A) : M trace self A :=
  fun s =>
    match dict_get k (d (fst s)) with
    | None => (Raise (KeyError k), s)
    | Some trk => (f trk, s)
    end.

(** [del self.d[k]] *)
Definition del_key (k : Z) : M trace self unit :=
  fun s =>
    match dict_get k (d (fst s)) with
    | None => (Raise (KeyError k), s)
    | Some _ => (Ret tt, ({| d := dict_del k (d (fst s)); i := i (fst s) |}, snd s))
    end.

Definition update_one (fr : frame) (fid : Z) : M trace self unit :=
  q <- at_key fid (Tracker.update fr) ;;
  lost <- (if Qlt_bool q 7 then ret true
           else inside <- read_key fid (fun trk => Tracker.is_in_frame trk (shape fr)) ;;
                ret (negb inside)) ;;
  if lost : bool then del_key fid else ret tt.

Definition update (fr : frame) : M trace self unit :=
  keys <- gets (fun s => dict_keys (d s)) ;;
  for_each keys (update_one fr).

(** One element of [rmscore]. *)
Definition score (fr : frame) (bb : rectangle) (k : Z) : M trace self Q :=
  c <- read_key k (fun trk => Tracker.iou trk bb) ;;
  if Qlt_bool (1 # 2) c then at_key k (Tracker.tracking_quality fr bb) else ret 0%Q.

(** The locals [to_remove] and [to_add] of [ingest_detection]. *)
Record locals : Type := Locals { to_remove : list Z; to_add : dict Tracker.self }.

(** [to_add[idrm] = Tracker(frame, bb, idrm)] after [to_remove.remove(idrm)]. *)
Definition claim (fr : frame) (bb : rectangle) (idrm : Z) (loc : locals)
  : M trace self locals :=
  trk <- Tracker.init fr bb idrm ;;
  ret {| to_remove := list_remove idrm (to_remove loc);
         to_add := dict_set idrm trk (to_add loc) |}.

(** [to_add[self.i] = Tracker(frame, bb, self.i); self.i += 1]. *)
Definition spawn (fr : frame) (bb : rectangle) (loc : locals) : M trace self locals :=
  n <- gets i ;;
  trk <- Tracker.init fr bb n ;;
  modify (fun s => {| d := d s; i := i s + 1 |}) ;;
  ret {| to_remove := to_remove loc; to_add := dict_set n trk (to_add loc) |}.

(** The body of the loop over the detected boxes. *)
Definition ingest_one (fr : frame) (bb : rectangle) (loc : locals) : M trace self locals :=
  rmscore <- comprehension (to_remove loc) (score fr bb) ;;
  match argmax rmscore with
  | Some am =>
      match nth_error rmscore am with
      | None => raise IndexError
      | Some best =>
          if Qlt_bool 7 best then
            match nth_error (to_remove loc) am with
            | None => raise IndexError
            | Some idrm => claim fr bb idrm loc
            end
          else spawn fr bb loc
      end
  | None => spawn fr bb loc
  end.

Fixpoint ingest_loop (fr : frame) (lbox : list rectangle) (loc : locals)
  : M trace self locals :=
  match lbox with
  | [] => ret loc
  | bb :: r => loc' <- ingest_one fr bb loc ;; ingest_loop fr r loc'
  end.

Definition ingest_detection (fr : frame) (lbox : list rectangle) : M trace self unit :=
  keys <- gets (fun s => dict_keys (d s)) ;;
  loc <- ingest_loop fr lbox {| to_remove := keys; to_add := [] |} ;;
  modify (fun s => {| d := to_add loc; i := i s |}).
End WithExtern.
End TrackerList.

(* ===================================================================== *)
(** ** class TrackerDetector *)
(* ===================================================================== *)

Module TrackerDetector.
Section WithExtern.
Context `{E : Extern}.

(** What the face detector returns for a frame: boxes as four floats,
    each with a confidence. *)
Definition detection : Type := (Q * Q * Q * Q) * Q.

Record self : Type := Make {
  detector : frame -> list detection;
  detection_period : Z;
  tl : TrackerList.self;
  iframe : Z
}.

(** The attributes [__init__] sets. *)
Definition instance_attrs : list string :=
  ["detector"; "detection_period"; "tl"; "iframe"]%string.

Definition load_attr (x : string) : M trace self unit :=
  if existsb (String.eqb x) instance_attrs then ret tt
  else raise (AttributeError x).

Definition init (det : frame -> list detection) (period : Z) : self :=
  {| detector := det; detection_period := period;
     tl := TrackerList.init; iframe := 0 |}.

(** A method call on the registry held in [self.tl]. *)
Definition on_tl {A} (m : M trace TrackerList.self A) : M trace self A :=
  fun s =>
    let r := m (tl (fst s), snd s) in
    (fst r, ({| detector := detector (fst s);
                detection_period := detection_period (fst s);
                tl := fst (snd r); iframe := iframe (fst s) |}, snd (snd r))).

Definition to_rectangle (b : Q * Q * Q * Q) : rectangle :=
  let '(x0, x1, x2, x3) := b in
  Rectangle (py_int x0) (py_int x1) (py_int x2) (py_int x3).

Definition emitted : Type := (Q * Q * Q * Q) * Z.

Definition positions (reg : TrackerList.self) : list emitted :=
  map (fun kv => let bb := ct_get_position (Tracker.t (snd kv)) in
                 ((dleft bb, dtop bb, dright bb, dbottom bb), fst kv))
      (TrackerList.d reg).

(** [__call__].  The body names the registry [tl], not [self.tl], and
    the detector [self.face_detector]; each use is a look-up that has
    to succeed before the statement runs on the registry. *)
Definition call (fr : frame) : M trace self (list emitted) :=
  load_global "tl" ;;
  on_tl (TrackerList.update fr) ;;
  n <- gets iframe ;;
  p <- gets detection_period ;;
  m <- lift (py_mod n p) ;;
  (if negb (m =? 0) then
     load_attr "face_detector" ;;
     emit (EvDetect fr) ;;
     det <- gets detector ;;
     load_global "tl" ;;
     on_tl (TrackerList.ingest_detection fr (map (fun e => to_rectangle (fst e)) (det fr)))
   else ret tt) ;;
  load_global "tl" ;;
  lret <- gets (fun s => positions (tl s)) ;;
  modify (fun s => {| detector := detector s;
                      detection_period := detection_period s;
                      tl := tl s; iframe := iframe s + 1 |}) ;;
  ret lret.
End WithExtern.
End TrackerDetector.

(* ===================================================================== *)
(** ** Vocabulary of the statements *)
(* ===================================================================== *)

Section Vocabulary.
Context `{E : Extern}.

(** The denominator of [iou]. *)
Definition iou_den (s : Tracker.self) (bb : rectangle) : Q :=
  (inject_Z (Tracker.intersect_area s bb)
   + drect_area (ct_get_position (Tracker.t s))
   + inject_Z (rect_area bb))%Q.

(** What is asked of the rectangle arithmetic: areas are not negative,
    and a box contains its intersection with another. *)
Definition nonneg_areas : Prop :=
  (forall p, 0 <= drect_area p)%Q /\ (forall a b, 0 <= rect_area (rect_intersect a b)).

Definition intersection_within : Prop :=
  forall a b, rect_area (rect_intersect a b) <= rect_area a.

(** The object [Tracker(frame, bb, id)] builds. *)
Definition started (fr : frame) (bb : rectangle) (id : Z) : Tracker.self :=
  {| Tracker.last_frame := fr;
     Tracker.t := ct_start_track correlation_tracker fr bb;
     Tracker.tid := id;
     Tracker.update_val := None |}.

(** One new track per box, with the ids [n], [n+1], ... in the order of
    the boxes, and the calls of the primitive that start them. *)
Fixpoint spawned (fr : frame) (lbox : list rectangle) (n : Z) : dict Tracker.self :=
  match lbox with
  | [] => []
  | bb :: r => (n, started fr bb n) :: spawned fr r (n + 1)
  end.

Fixpoint starts (fr : frame) (lbox : list rectangle) (n : Z) : trace :=
  match lbox with
  | [] => []
  | bb :: r => EvStart n fr bb :: starts fr r (n + 1)
  end.

(** [n] consecutive integers from [a]. *)
Fixpoint zrange (a : Z) (n : nat) : list Z :=
  match n with
  | O => []
  | S n' => a :: zrange (a + 1) n'
  end.

(** Every track is filed under its own id. *)
Definition tids_ok (m : dict Tracker.self) : Prop :=
  forall k trk, In (k, trk) m -> Tracker.tid trk = k.

(** A well-formed registry: no id twice, every live id below the
    counter, every track filed under its own id. *)
Record wf (reg : TrackerList.self) : Prop := {
  wf_nodup : NoDup (dict_keys (TrackerList.d reg));
  wf_below : forall k, In k (dict_keys (TrackerList.d reg)) -> 0 <= k < TrackerList.i reg;
  wf_counter : 0 <= TrackerList.i reg;
  wf_tid : tids_ok (TrackerList.d reg)
}.

(** The calls made on a registry, and the state after a sequence of
    them; a call that raises leaves the registry as it was when the
    exception left the method. *)
Inductive op : Type :=
| OpUpdate (fr : frame)
| OpIngest (fr : frame) (lbox : list rectangle).

Definition step (o : op) (s : TrackerList.self * trace) : TrackerList.self * trace :=
  match o with
  | OpUpdate fr => snd (TrackerList.update fr s)
  | OpIngest fr lbox => snd (TrackerList.ingest_detection fr lbox s)
  end.

Definition run (ops : list op) (s : TrackerList.self * trace) : TrackerList.self * trace :=
  fold_left (fun s o => step o s) ops s.

(** The state of the loop of [ingest_detection] after [n] boxes, for a
    pass that began with the live ids [keys0] and the counter [i0]. *)
Record loop_inv (fr : frame) (boxes : list rectangle) (keys0 : list Z) (i0 : Z)
  (n : nat) (loc : TrackerList.locals) (reg : TrackerList.self) : Prop := {
  li_keys : dict_keys (TrackerList.d reg) = keys0;
  li_counter : i0 <= TrackerList.i reg;
  li_pool_incl : incl (TrackerList.to_remove loc) keys0;
  li_pool_nodup : NoDup (TrackerList.to_remove loc);
  li_add_nodup : NoDup (dict_keys (TrackerList.to_add loc));
  li_add_src : forall k, In k (dict_keys (TrackerList.to_add loc)) <->
      (In k keys0 /\ ~ In k (TrackerList.to_remove loc))
      \/ i0 <= k < TrackerList.i reg;
  li_add_started : forall k trk, In (k, trk) (TrackerList.to_add loc) ->
      exists bb, In bb boxes /\ trk = started fr bb k;
  li_spawned : filter (fun k => i0 <=? k) (dict_keys (TrackerList.to_add loc))
      = zrange i0 (Z.to_nat (TrackerList.i reg - i0));
  li_length : List.length (TrackerList.to_add loc) = n
}.
(** [holds]: same live ids, same counter, tracks still filed under their
    ids.  [keeps]: the same, with a counter that may have advanced. *)
Definition holds (reg reg' : TrackerList.self) : Prop :=
  dict_keys (TrackerList.d reg') = dict_keys (TrackerList.d reg)
  /\ TrackerList.i reg' = TrackerList.i reg
  /\ (tids_ok (TrackerList.d reg) -> tids_ok (TrackerList.d reg')).

Definition keeps (reg reg' : TrackerList.self) : Prop :=
  dict_keys (TrackerList.d reg') = dict_keys (TrackerList.d reg)
  /\ TrackerList.i reg <= TrackerList.i reg'
  /\ (tids_ok (TrackerList.d reg) -> tids_ok (TrackerList.d reg')).


(** The scheduler called on each frame of a sequence; an exception
    leaves it as it was when the exception left [__call__]. *)
Definition calls (frames : list frame) (s : TrackerDetector.self * trace)
  : TrackerDetector.self * trace :=
  fold_left (fun s fr => snd (TrackerDetector.call fr s)) frames s.

End Vocabulary.

(* ===================================================================== *)
(** ** A scripted instance of the interface *)
(* ===================================================================== *)

Module Scripted.

(** A frame is a handle compared by its reference; it carries what the
    scripted tracker primitive answers on it: the displacement and the
    quality of a propagation, and the quality of a restart at a box. *)
Record sframe : Type := SFrame {
  fref : nat;
  fheight : Z;
  fwidth : Z;
  fdx : Q;
  fdy : Q;
  fquality : Q;
  fprobe : list (rectangle * Q)
}.

Definition rectangle_eqb (a b : rectangle) : bool :=
  (left a =? left b) && (top a =? top b)
  && (right a =? right b) && (bottom a =? bottom b).

Fixpoint probe_of (tbl : list (rectangle * Q)) (bb : rectangle) : Q :=
  match tbl with
  | [] => 0%Q
  | (r, q) :: rest => if rectangle_eqb r bb then q else probe_of rest bb
  end.

Definition shift (dx dy : Q) (p : drectangle) : drectangle :=
  DRectangle (dleft p + dx) (dtop p + dy) (dright p + dx) (dbottom p + dy).

(** Modelled from the spec: the rectangle arithmetic of dlib is not in
    the repository; a box has area (right-left)*(bottom-top), and a box
    with right < left or bottom < top is empty, of area 0. *)
Definition area (r : rectangle) : Z :=
  if (left r <=? right r) && (top r <=? bottom r)
  then (right r - left r) * (bottom r - top r) else 0.

(** Modelled from the spec: the intersection of two boxes is the box of
    the larger left and top and the smaller right and bottom. *)
Definition intersect (a b : rectangle) : rectangle :=
  Rectangle (Z.max (left a) (left b)) (Z.max (top a) (top b))
            (Z.min (right a) (right b)) (Z.min (bottom a) (bottom b)).

(** Modelled from the spec: the area of a real-valued box, as [area]. *)
Definition darea (r : drectangle) : Q :=
  if Qle_bool (dleft r) (dright r) && Qle_bool (dtop r) (dbottom r)
  then ((dright r - dleft r) * (dbottom r - dtop r))%Q else 0%Q.

Definition to_drectangle (r : rectangle) : drectangle :=
  DRectangle (inject_Z (left r)) (inject_Z (top r))
             (inject_Z (right r)) (inject_Z (bottom r)).

#[export] Instance extern : Extern := {|
  frame := sframe;
  frame_ne := fun a b => negb (Nat.eqb (fref a) (fref b));
  shape := fun f => (fheight f, fwidth f, 3);
  rect_area := area;
  rect_intersect := intersect;
  drect_area := darea;
  ctracker := drectangle;
  correlation_tracker := DRectangle 0 0 (-1) (-1);
  ct_start_track := fun _ _ bb => to_drectangle bb;
  ct_update := fun p f => (shift (fdx f) (fdy f) p, fquality f);
  ct_update_guess := fun p f bb => (to_drectangle bb, probe_of (fprobe f) bb);
  ct_get_position := fun p => p
|}.

End Scripted.

(* ===================================================================== *)
(** ** Concrete inputs on the scripted instance *)
(* ===================================================================== *)

Module Scenario.
Import Scripted.

Definition bb1 : rectangle := Rectangle 0 0 10 10.
Definition bb2 : rectangle := Rectangle 0 1 10 10.

(** Three 100x100 frames.  On [frame1] the primitive reports quality 9
    and a move by (1,1), and restarts at [bb1] and [bb2] score 9 and 8;
    on [frame_exit] it reports quality 9 and a move by 200 to the left. *)
Definition frame0 : sframe := SFrame 0 100 100 0 0 9 [].
Definition frame1 : sframe := SFrame 1 100 100 1 1 9 [(bb1, 9%Q); (bb2, 8%Q)].
Definition frame_exit : sframe := SFrame 2 100 100 (-200) 0 9 [].

(** The track of id 0, started on [frame0] at [bb1], and a registry
    holding it. *)
Definition track0 : Tracker.self :=
  Tracker.Make frame0 (to_drectangle bb1) 0 None.

Definition registry0 : TrackerList.self := TrackerList.Make [(0, track0)] 1.


(** A track whose position is not on the pixel grid. *)
Definition track_subpixel : Tracker.self :=
  Tracker.Make frame0 (DRectangle (9 # 10) (9 # 10) 10 10) 0 None.

(** The empty rectangle, and a track on the empty position. *)
Definition bb_empty : rectangle := Rectangle 0 0 (-1) (-1).

Definition track_empty : Tracker.self :=
  Tracker.Make frame0 (DRectangle 0 0 (-1) (-1)) 0 None.

Definition registry_empty_track : TrackerList.self :=
  TrackerList.Make [(0, track_empty)] 1.

(** A detector that finds nothing, for a scheduler of period 3. *)
Definition scheduler0 : TrackerDetector.self :=
  TrackerDetector.Make (fun _ => []) 3 registry0 0.

End Scenario.

(* ===================================================================== *)
(** ** inaFaceGender.py: the analysers *)
(* ===================================================================== *)

(** What the analysers consume and do not define: the frames of
    [video_iterator], the face detector, [preprocess_face] (on a
    detection, and on a [Rect]), the classifier (called with [False] it
    returns a dataframe, with [True] features and a dataframe), [Rect]
    built from a tuple, and the two [df.insert] of
    [classif_from_frame_and_bbox].  Printing under [verbose] is left out. *)
Class Pipeline : Type := {
  vframe : Type;
  detection : Type;
  image : Type;
  bbox : Type;
  confidence : Type;
  features : Type;
  dataframe : Type;
  Rect : Type;
  rect_tuple : Type;
  face_detector : vframe -> list detection;
  preprocess_face : vframe -> detection -> image * bbox;
  preprocess_rect : vframe -> Rect -> image * bbox;
  detection_conf : detection -> confidence;
  classifier : list image -> dataframe;
  classifier_feats : list image -> features * dataframe;
  Rect_of_tuple : rect_tuple -> Rect;
  insert_feats_bbox : dataframe -> features -> bbox -> dataframe
}.

Module FaceAnalyzer.
Section WithPipeline.
Context `{P : Pipeline}.

(** The class attribute [batch_len = 32]. *)
Definition batch_len : nat := 32.

Definition classif_from_frame_and_bbox (fr : vframe) (bb : Rect) : dataframe :=
  let r := preprocess_rect fr bb in
  let c := classifier_feats [fst r] in
  insert_feats_bbox (snd c) (fst c) (snd r).
End WithPipeline.
End FaceAnalyzer.

Module GenderVideo.
Section WithPipeline.
Context `{P : Pipeline}.

(** The three lists of [__call__]. *)
Record locals : Type := Locals {
  lbatch_img : list image;
  linfo : list (Z * bbox * confidence);
  ldf : list dataframe
}.

(** The body of the loop over the detections of a frame. *)
Definition add_detection (iframe : Z) (fr : vframe) (loc : locals) (det : detection)
  : locals :=
  let r := preprocess_face fr det in
  {| lbatch_img := lbatch_img loc ++ [fst r];
     linfo := linfo loc ++ [(iframe, snd r, detection_conf det)];
     ldf := ldf loc |}.

Definition add_detections (iframe : Z) (fr : vframe) (loc : locals) : locals :=
  fold_left (add_detection iframe fr) (face_detector fr) loc.

(** [while len(lbatch_img) > self.batch_len: ...], with [bl] the value of
    [self.batch_len]; [None] when the loop has not ended within [fuel]
    tests. *)
Fixpoint flush_full (fuel bl : nat) (loc : locals) : option locals :=
  match fuel with
  | O => None
  | S fuel' =>
      if (bl <? List.length (lbatch_img loc))%nat then
        flush_full fuel' bl
          {| lbatch_img := skipn bl (lbatch_img loc);
             linfo := linfo loc;
             ldf := ldf loc ++ [classifier (firstn bl (lbatch_img loc))] |}
      else Some loc
  end.

(** The loop over the frames of the video. *)
Fixpoint frames_loop (fuel bl : nat) (frames : list (Z * vframe)) (loc : locals)
  : option locals :=
  match frames with
  | [] => Some loc
  | (iframe, fr) :: r =>
      match flush_full fuel bl (add_detections iframe fr loc) with
      | Some loc' => frames_loop fuel bl r loc'
      | None => None
      end
  end.

(** [if len(lbatch_img) > 0: ...] after the loop. *)
Definition flush_rest (loc : locals) : locals :=
  if (0 <? List.length (lbatch_img loc))%nat then
    {| lbatch_img := lbatch_img loc;
       linfo := linfo loc;
       ldf := ldf loc ++ [classifier (lbatch_img loc)] |}
  else loc.

(** What [__call__] returns: the empty dataframe with the analyser's
    columns, or the dataframe of [linfo] joined to the concatenation of
    [ldf]. *)
Inductive returned : Type :=
| EmptyDataFrame
| Joined (info : list (Z * bbox * confidence)) (dfs : list dataframe).

Definition assemble (loc : locals) : returned :=
  if (List.length (ldf loc) =? 0)%nat then EmptyDataFrame
  else Joined (linfo loc) (ldf loc).

(** [__call__] on the frames [video_iterator] yields. *)
Definition call (fuel bl : nat) (frames : list (Z * vframe)) : option returned :=
  match frames_loop fuel bl frames {| lbatch_img := []; linfo := []; ldf := [] |} with
  | Some loc => Some (assemble (flush_rest loc))
  | None => None
  end.

(** [pred_from_vid_and_bblist]: a box is a [Rect] or a tuple to build one
    from. *)
Definition as_Rect (b : rect_tuple + Rect) : Rect :=
  match b with
  | inl t => Rect_of_tuple t
  | inr r => r
  end.

(** The failed assertion carries the two numbers of its message. *)
Inductive pred_outcome : Type :=
| AssertionError (nbox nframes : nat)
| Predicted (dfs : list dataframe).

Definition pred_from_vid_and_bblist (frames : list (Z * vframe))
  (lbox : list (rect_tuple + Rect)) : pred_outcome :=
  let dfs := map (fun p => FaceAnalyzer.classif_from_frame_and_bbox
                             (snd (fst p)) (as_Rect (snd p)))
                 (combine frames lbox) in
  if (List.length dfs =? List.length lbox)%nat then Predicted dfs
  else AssertionError (List.length lbox) (List.length dfs).

(** The images and the rows of a whole video, in order. *)
Definition all_images (frames : list (Z * vframe)) : list image :=
  flat_map (fun f => map (fun det => fst (preprocess_face (snd f) det))
                         (face_detector (snd f))) frames.

Definition all_info (frames : list (Z * vframe)) : list (Z * bbox * confidence) :=
  flat_map (fun f => map (fun det => (fst f, snd (preprocess_face (snd f) det),
                                      detection_conf det))
                         (face_detector (snd f))) frames.
End WithPipeline.
End GenderVideo.

Module GenderTracking.
Section WithExtern.
Context `{E : Extern} `{P : Pipeline}.

(** The lists of [__call__]; a row of [linfo] has five entries, built
    from what the scheduler emits. *)
Variable row : Type.

Record locals : Type := Locals {
  lbatch_img : list image;
  linfo : list row;
  ldf : list dataframe
}.

(** What an iteration does with the list the scheduler returned (the
    loop over it, [preprocess_face] on a pair of a box and an id, and the
    loop that empties full batches) depends on code that is not in the
    repository; it is a parameter. *)
Variable iteration :
  Z -> frame -> list TrackerDetector.emitted -> locals ->
  M trace TrackerDetector.self locals.

Fixpoint frames_loop (frames : list (Z * frame)) (loc : locals)
  : M trace TrackerDetector.self locals :=
  match frames with
  | [] => ret loc
  | (iframe, fr) :: r =>
      lret <- TrackerDetector.call fr ;;
      loc' <- iteration iframe fr lret loc ;;
      frames_loop r loc'
  end.

Definition flush_rest (loc : locals) : locals :=
  if (0 <? List.length (lbatch_img loc))%nat then
    {| lbatch_img := lbatch_img loc;
       linfo := linfo loc;
       ldf := ldf loc ++ [classifier (lbatch_img loc)] |}
  else loc.

(** The dataframe the last lines bind to [df]. *)
Inductive built : Type :=
| EmptyDataFrame
| Joined (info : list row) (dfs : list dataframe).

Definition assemble (loc : locals) : built :=
  if (List.length (ldf loc) =? 0)%nat then EmptyDataFrame
  else Joined (linfo loc) (ldf loc).

(** [__call__] on the frames [video_iterator] yields, run on the
    scheduler it creates.  The method ends after binding [df]: it has no
    [return]. *)
Definition call (frames : list (Z * frame)) : M trace TrackerDetector.self unit :=
  loc <- frames_loop frames {| lbatch_img := []; linfo := []; ldf := [] |} ;;
  let df := assemble (flush_rest loc) in
  ret tt.

Definition run (det : frame -> list TrackerDetector.detection) (detection_period : Z)
  (frames : list (Z * frame)) (tr : trace)
  : outcome unit * (TrackerDetector.self * trace) :=
  call frames (TrackerDetector.init det detection_period, tr).
End WithExtern.
End GenderTracking.

(* ===================================================================== *)
(** ** More concrete inputs on the scripted instance *)
(* ===================================================================== *)

Module Lost.
Import Scripted.


End Lost.

(* ===================================================================== *)
(** ** A scripted pipeline *)
(* ===================================================================== *)

Module ScriptedPipeline.

(** A frame is the list of the faces on it, a face is a number; the
    classifier answers the batch it was given. *)
#[export] Instance pipeline : Pipeline := {|
  vframe := list nat;
  detection := nat;
  image := nat;
  bbox := nat;
  confidence := nat;
  features := nat;
  dataframe := list nat;
  Rect := nat;
  rect_tuple := nat;
  face_detector := fun fr => fr;
  preprocess_face := fun _ det => (det, det);
  preprocess_rect := fun _ r => (r, r);
  detection_conf := fun det => det;
  classifier := fun batch => batch;
  classifier_feats := fun batch => (List.length batch, batch);
  Rect_of_tuple := fun t => t;
  insert_feats_bbox := fun df _ _ => df
|}.

(** Three frames with 2, 0 and 3 faces. *)
Definition video : list (Z * list nat) :=
  [(0, [1; 2]%nat); (1, []); (2, [3; 4; 5]%nat)].

End ScriptedPipeline.

(* ===================================================================== *)
(** ** Numbers *)
(* ===================================================================== *)

Lemma Qlt_bool_iff x y : Qlt_bool x y = true <-> (x < y)%Q.
Proof.
  unfold Qlt_bool. rewrite negb_true_iff. split; intro H.
  - apply Qnot_le_lt. intro L. apply Qle_bool_iff in L. congruence.
  - destruct (Qle_bool y x) eqn:E; [|reflexivity].
    apply Qle_bool_iff in E. exfalso. exact (Qlt_not_le _ _ H E).
Qed.

Lemma Qlt_bool_false_iff x y : Qlt_bool x y = false <-> (y <= x)%Q.
Proof.
  unfold Qlt_bool. rewrite negb_false_iff. apply Qle_bool_iff.
Qed.

Lemma py_div_nonzero x y : ~ (y == 0)%Q -> py_div x y = Ret (x / y)%Q.
Proof.
  intro H. unfold py_div. destruct (Qeq_bool y 0) eqn:E; [|reflexivity].
  apply Qeq_bool_iff in E. contradiction.
Qed.

Lemma py_div_zero x y : (y == 0)%Q -> py_div x y = Raise ZeroDivisionError.
Proof.
  intro H. unfold py_div. apply Qeq_bool_iff in H. now rewrite H.
Qed.

(* ===================================================================== *)
(** ** Dictionaries and lists *)
(* ===================================================================== *)

Section DictFacts.
Variable V : Type.
Implicit Types (m : dict V) (k : Z) (v : V).

Lemma dict_get_none k m : dict_get k m = None <-> ~ In k (dict_keys m).
Proof.
  induction m as [|[k' v'] r IH]; simpl.
  - tauto.
  - destruct (Z.eqb_spec k k').
    + split; [discriminate | intro H; exfalso; apply H; left; congruence].
    + rewrite IH. split; intro H; [intros [?|?]; [congruence|tauto] | tauto].
Qed.

Lemma dict_get_some k v m : dict_get k m = Some v -> In (k, v) m.
Proof.
  induction m as [|[k' v'] r IH]; simpl; [discriminate|].
  destruct (Z.eqb_spec k k'); intro H.
  - left. congruence.
  - right. auto.
Qed.

Lemma dict_get_in_keys k v m : dict_get k m = Some v -> In k (dict_keys m).
Proof.
  intro H. apply dict_get_some in H. unfold dict_keys.
  change k with (fst (k, v)). now apply in_map.
Qed.

Lemma dict_in_keys_get k m : In k (dict_keys m) -> exists v, dict_get k m = Some v.
Proof.
  intro H. destruct (dict_get k m) eqn:E; [eauto|].
  apply dict_get_none in E. contradiction.
Qed.

Lemma dict_keys_set_in k v m :
  In k (dict_keys m) -> dict_keys (dict_set k v m) = dict_keys m.
Proof.
  induction m as [|[k' v'] r IH]; simpl; [tauto|].
  destruct (Z.eqb_spec k k'); simpl; intro H.
  - congruence.
  - f_equal. apply IH. destruct H; [congruence|assumption].
Qed.

Lemma dict_keys_set_notin k v m :
  ~ In k (dict_keys m) -> dict_keys (dict_set k v m) = dict_keys m ++ [k].
Proof.
  induction m as [|[k' v'] r IH]; simpl; [reflexivity|].
  destruct (Z.eqb_spec k k'); simpl; intro H.
  - exfalso. apply H. left. congruence.
  - f_equal. apply IH. tauto.
Qed.

Lemma dict_set_in k v m k' v' :
  In (k', v') (dict_set k v m) -> (k' = k /\ v' = v) \/ In (k', v') m.
Proof.
  induction m as [|[k1 v1] r IH]; simpl.
  - intros [H|[]]. left. split; congruence.
  - destruct (Z.eqb_spec k k1); simpl.
    + intros [H|H]; [left; split; congruence | right; now right].
    + intros [H|H]; [right; now left|].
      destruct (IH H); [now left | right; now right].
Qed.

Lemma dict_set_length_notin k v m :
  ~ In k (dict_keys m) -> length (dict_set k v m) = S (length m).
Proof.
  induction m as [|[k' v'] r IH]; simpl; [reflexivity|].
  destruct (Z.eqb_spec k k'); simpl; intro H.
  - exfalso. apply H. left. congruence.
  - f_equal. apply IH. tauto.
Qed.

Lemma dict_get_set_same k v m : dict_get k (dict_set k v m) = Some v.
Proof.
  induction m as [|[k' v'] r IH]; simpl.
  - now rewrite Z.eqb_refl.
  - destruct (Z.eqb_spec k k'); simpl.
    + now rewrite Z.eqb_refl.
    + destruct (Z.eqb_spec k k'); [contradiction|assumption].
Qed.

Lemma dict_set_get_id k v m : dict_get k m = Some v -> dict_set k v m = m.
Proof.
  induction m as [|[k' v'] r IH]; simpl; [discriminate|].
  destruct (Z.eqb_spec k k'); intro H.
  - congruence.
  - f_equal. auto.
Qed.




Lemma dict_del_not_in k m : NoDup (dict_keys m) -> ~ In k (dict_keys (dict_del k m)).
Proof.
  induction m as [|[k1 v1] r IH]; simpl; [tauto|].
  intro H. inversion H as [|? ? Hn Hr]; subst.
  destruct (Z.eqb_spec k k1); simpl.
  - congruence.
  - intros [?|?]; [congruence | now apply IH].
Qed.
End DictFacts.

Lemma list_remove_incl x l : incl (list_remove x l) l.
Proof.
  induction l as [|y r IH]; simpl; [apply incl_refl|].
  destruct (Z.eqb_spec x y).
  - apply incl_tl, incl_refl.
  - intros z [H|H]; [now left | right; now apply IH].
Qed.

Lemma list_remove_nodup x l : NoDup l -> NoDup (list_remove x l).
Proof.
  induction l as [|y r IH]; simpl; [auto|].
  intro H. inversion H as [|? ? Hn Hr]; subst.
  destruct (Z.eqb_spec x y); [assumption|].
  constructor; [|auto]. intro Hin. apply Hn. now apply (list_remove_incl x r).
Qed.

Lemma list_remove_in x l z :
  NoDup l -> (In z (list_remove x l) <-> In z l /\ z <> x).
Proof.
  induction l as [|y r IH]; simpl; [tauto|].
  intro H. inversion H as [|? ? Hn Hr]; subst.
  destruct (Z.eqb_spec x y); simpl.
  - subst. split.
    + intro Hz. split; [now right|]. intro; subst. contradiction.
    + intros [[?|?] ?]; [congruence|assumption].
  - rewrite (IH Hr). split.
    + intros [?|[? ?]]; [subst; split; [now left|congruence] | split; [now right|assumption]].
    + intros [[?|?] ?]; [now left | right; tauto].
Qed.

Lemma argmax_from_bound l : forall best bi idx,
  (bi < idx)%nat -> (argmax_from best bi idx l < idx + length l)%nat.
Proof.
  induction l as [|x r IH]; simpl; intros best bi idx H.
  - lia.
  - destruct (Qlt_bool best x).
    + specialize (IH x idx (S idx)). lia.
    + specialize (IH best bi (S idx)). lia.
Qed.

Lemma argmax_bound l am : argmax l = Some am -> (am < length l)%nat.
Proof.
  destruct l as [|x r]; simpl; [discriminate|].
  intro H. injection H as <-.
  pose proof (argmax_from_bound r x (bi:=0) (idx:=1)). lia.
Qed.

(* ===================================================================== *)
(** ** Running computations *)
(* ===================================================================== *)

Section Runs.
Context {L S : Type}.

Lemma run_bind_ret {A B} (m : M L S A) (k : A -> M L S B) s a s' :
  m s = (Ret a, s') -> bind m k s = k a s'.
Proof. intro H. unfold bind. now rewrite H. Qed.

Lemma run_bind_raise {A B} (m : M L S A) (k : A -> M L S B) s e s' :
  m s = (Raise e, s') -> bind m k s = (Raise e, s').
Proof. intro H. unfold bind. now rewrite H. Qed.

Section Stable.
Variable R : S -> S -> Prop.
Hypothesis R_refl : forall s, R s s.
Hypothesis R_trans : forall a b c, R a b -> R b c -> R a c.

Lemma stable_ret {A} (a : A) : stable R (ret a : M L S A).
Proof. intro s. apply R_refl. Qed.

Lemma stable_raise {A} e : stable R (@raise L S A e).
Proof. intro s. apply R_refl. Qed.

Lemma stable_gets {A} (f : S -> A) : stable R (gets f : M L S A).
Proof. intro s. apply R_refl. Qed.

Lemma stable_lift {A} (o : outcome A) : stable R (lift o : M L S A).
Proof. intro s. apply R_refl. Qed.

Lemma stable_modify (f : S -> S) : (forall s, R s (f s)) -> stable R (@modify L S f).
Proof. intros H s. apply H. Qed.

Lemma stable_bind {A B} (m : M L S A) (k : A -> M L S B) :
  stable R m -> (forall a, stable R (k a)) -> stable R (bind m k).
Proof.
  intros Hm Hk s. unfold bind. specialize (Hm s).
  destruct (m s) as [[a|e] s']; simpl in *.
  - eapply R_trans; [exact Hm | apply Hk].
  - exact Hm.
Qed.


Lemma stable_comprehension {X A} (l : list X) (f : X -> M L S A) :
  (forall x, stable R (f x)) -> stable R (comprehension l f).
Proof.
  intro H. induction l as [|x r IH]; simpl.
  - apply stable_ret.
  - apply stable_bind; [auto|]. intro a.
    apply stable_bind; [auto|]. intro t. apply stable_ret.
Qed.
End Stable.
End Runs.

Lemma stable_emit {L S} (R : S -> S -> Prop) (e : L) :
  (forall s, R s s) -> stable R (@emit L S e).
Proof. intros H s. apply H. Qed.

Lemma stable_load_global {L S} (R : S -> S -> Prop) (x : string) :
  (forall s, R s s) -> stable R (@load_global L S x).
Proof.
  intros H. unfold load_global. destruct (is_global x).
  - now apply stable_ret.
  - now apply stable_raise.
Qed.

(* ===================================================================== *)
(** ** Tracker: propagation and overlap *)
(* ===================================================================== *)

Section TrackerFacts.
Context `{E : Extern}.


Lemma update_new_frame (s : Tracker.self) (fr : frame) (tr : trace) :
  frame_ne fr (Tracker.last_frame s) = true ->
  Tracker.update fr (s, tr) =
  (Ret (snd (ct_update (Tracker.t s) fr)),
   ({| Tracker.last_frame := fr;
       Tracker.t := fst (ct_update (Tracker.t s) fr);
       Tracker.tid := Tracker.tid s;
       Tracker.update_val := Some (snd (ct_update (Tracker.t s) fr)) |},
    tr ++ [EvUpdate (Tracker.tid s) fr])).
Proof.
  intro H. unfold Tracker.update, bind, gets, ret, raise, emit, modify. simpl.
  rewrite H. reflexivity.
Qed.


Lemma tracking_quality_run (s : Tracker.self) (fr : frame) (bb : rectangle) (tr : trace) :
  Tracker.tracking_quality fr bb (s, tr) =
  (Ret (snd (ct_update_guess (Tracker.t s) fr bb)),
   ({| Tracker.last_frame := Tracker.last_frame s;
       Tracker.t := ct_start_track (fst (ct_update_guess (Tracker.t s) fr bb)) fr bb;
       Tracker.tid := Tracker.tid s;
       Tracker.update_val := Tracker.update_val s |},
    (tr ++ [EvProbe (Tracker.tid s) fr bb]) ++ [EvStart (Tracker.tid s) fr bb])).
Proof. reflexivity. Qed.

Lemma init_run {S} (fr : frame) (bb : rectangle) (id : Z) (s : S * trace) :
  Tracker.init fr bb id s =
  (Ret (started fr bb id), (fst s, snd s ++ [EvStart id fr bb])).
Proof. reflexivity. Qed.

Lemma is_in_frame_raises (s : Tracker.self) (sh : Z * Z * Z) :
  Tracker.is_in_frame s sh = Raise (NameError "frame").
Proof. reflexivity. Qed.

Lemma iou_nonzero_den (s : Tracker.self) (bb : rectangle) :
  ~ (iou_den s bb == 0)%Q ->
  Tracker.iou s bb = Ret (inject_Z (Tracker.intersect_area s bb) / iou_den s bb)%Q.
Proof.
  intro Hnz. unfold Tracker.iou. fold (iou_den s bb). now apply py_div_nonzero.
Qed.

(** C9, as the code has it.  The division of [iou] is not guarded: [iou]
    raises ZeroDivisionError exactly when the intersection, the area of
    the tracker's box and the area of the candidate box sum to zero, and
    returns the quotient of the intersection by that sum otherwise. *)
Theorem iou_division (s : Tracker.self) (bb : rectangle) :
  (Tracker.iou s bb = Raise ZeroDivisionError <-> (iou_den s bb == 0)%Q)
  /\ (forall v, Tracker.iou s bb = Ret v <->
        ~ (iou_den s bb == 0)%Q
        /\ v = (inject_Z (Tracker.intersect_area s bb) / iou_den s bb)%Q).
Proof.
  unfold Tracker.iou, py_div. fold (iou_den s bb).
  destruct (Qeq_bool (iou_den s bb) 0) eqn:Ez.
  - apply Qeq_bool_iff in Ez. split.
    + tauto.
    + intro v. split; [discriminate | tauto].
  - apply Qeq_bool_neq in Ez. split.
    + split; [discriminate | tauto].
    + intro v. split.
      * intro H. split; [assumption | congruence].
      * intros [_ ->]. reflexivity.
Qed.

(** C1, on the code.  With a tracker box and a candidate box that
    coincide (the intersection and both areas are one positive number),
    [iou] returns a value equal to 1/3, and so not 1: the denominator
    adds the intersection to the two areas. *)
Theorem iou_identical_boxes_is_third (s : Tracker.self) (bb : rectangle) (a : Z) :
  0 < a ->
  rect_area bb = a ->
  Tracker.intersect_area s bb = a ->
  (drect_area (ct_get_position (Tracker.t s)) == inject_Z a)%Q ->
  exists v, Tracker.iou s bb = Ret v /\ (v == 1 # 3)%Q /\ ~ (v == 1)%Q.
Proof.
  intros Ha Hbb Hint Hpos.
  assert (Hq : (0 < inject_Z a)%Q) by (unfold Qlt; simpl; lia).
  assert (Hden : (iou_den s bb == 3 * inject_Z a)%Q).
  { unfold iou_den. rewrite Hint, Hbb, Hpos. ring. }
  assert (Hnz : ~ (iou_den s bb == 0)%Q) by (rewrite Hden; lra).
  exists (inject_Z a / iou_den s bb)%Q.
  assert (Hv : (inject_Z a / iou_den s bb == 1 # 3)%Q).
  { rewrite Hden. field. lra. }
  split; [|split].
  - rewrite <- Hint at 1. now apply iou_nonzero_den.
  - exact Hv.
  - rewrite Hv. easy.
Qed.
End TrackerFacts.

(* ===================================================================== *)
(** ** TrackerList: the tracks of a registry under its methods *)
(* ===================================================================== *)

Section RegistryFacts.
Context `{E : Extern}.

Lemma holds_refl reg : holds reg reg.
Proof. unfold holds. repeat split; auto. Qed.

Lemma holds_trans a b c : holds a b -> holds b c -> holds a c.
Proof.
  unfold holds. intros (K1 & I1 & T1) (K2 & I2 & T2).
  repeat split; [congruence | congruence | auto].
Qed.

Lemma keeps_refl reg : keeps reg reg.
Proof. unfold keeps. repeat split; auto; lia. Qed.

Lemma keeps_trans a b c : keeps a b -> keeps b c -> keeps a c.
Proof.
  unfold keeps. intros (K1 & I1 & T1) (K2 & I2 & T2).
  repeat split; [congruence | lia | auto].
Qed.

Lemma holds_keeps a b : holds a b -> keeps a b.
Proof. unfold holds, keeps. intros (K & I & T). repeat split; auto; lia. Qed.

Lemma stable_mono {L S A} {R R' : S -> S -> Prop} {m : M L S A} :
  (forall a b, R a b -> R' a b) -> stable R m -> stable R' m.
Proof. intros H Hm s. apply H, Hm. Qed.

Lemma at_key_holds {A} (k : Z) (m : M trace Tracker.self A) :
  (forall s, Tracker.tid (fst (snd (m s))) = Tracker.tid (fst s)) ->
  stable holds (TrackerList.at_key k m).
Proof.
  intros Htid s. unfold TrackerList.at_key.
  destruct (dict_get k (TrackerList.d (fst s))) as [trk|] eqn:G; simpl.
  - unfold holds. simpl. repeat split.
    + apply dict_keys_set_in. eapply dict_get_in_keys; eauto.
    + intros Hok k' trk' Hin. apply dict_set_in in Hin. destruct Hin as [[-> ->]|Hin].
      * rewrite Htid. simpl. apply Hok. now apply dict_get_some.
      * now apply Hok.
  - apply holds_refl.
Qed.

Lemma read_key_state {A} (k : Z) (f : Tracker.self -> outcome A) s :
  snd (TrackerList.read_key k f s) = s.
Proof.
  unfold TrackerList.read_key.
  destruct (dict_get k (TrackerList.d (fst s))); reflexivity.
Qed.

Lemma read_key_holds {A} (k : Z) (f : Tracker.self -> outcome A) :
  stable holds (TrackerList.read_key k f).
Proof. intro s. rewrite read_key_state. apply holds_refl. Qed.

Lemma tracking_quality_tid fr bb s :
  Tracker.tid (fst (snd (Tracker.tracking_quality fr bb s))) = Tracker.tid (fst s).
Proof. destruct s as [trk tr]. now rewrite tracking_quality_run. Qed.


Lemma score_holds fr bb k : stable holds (TrackerList.score fr bb k).
Proof.
  unfold TrackerList.score.
  apply (stable_bind holds_trans); [apply read_key_holds|].
  intro c. destruct (Qlt_bool (1 # 2) c).
  - apply at_key_holds, tracking_quality_tid.
  - apply stable_ret, holds_refl.
Qed.

Lemma scores_holds fr bb l : stable holds (comprehension l (TrackerList.score fr bb)).
Proof.
  apply (stable_comprehension holds_refl holds_trans). intro k. apply score_holds.
Qed.

Lemma init_keeps fr bb id : stable keeps (Tracker.init (S:=TrackerList.self) fr bb id).
Proof. intro s. rewrite init_run. apply keeps_refl. Qed.

Lemma spawn_keeps fr bb loc : stable keeps (TrackerList.spawn fr bb loc).
Proof.
  unfold TrackerList.spawn.
  apply (stable_bind keeps_trans); [apply stable_gets, keeps_refl|]. intro n.
  apply (stable_bind keeps_trans); [apply init_keeps|]. intro trk.
  apply (stable_bind keeps_trans); [|intro; apply stable_ret, keeps_refl].
  apply stable_modify. intro reg. unfold keeps. simpl. repeat split; auto; lia.
Qed.

Lemma claim_keeps fr bb idrm loc : stable keeps (TrackerList.claim fr bb idrm loc).
Proof.
  unfold TrackerList.claim.
  apply (stable_bind keeps_trans); [apply init_keeps|]. intro trk.
  apply stable_ret, keeps_refl.
Qed.

Lemma ingest_one_keeps fr bb loc : stable keeps (TrackerList.ingest_one fr bb loc).
Proof.
  unfold TrackerList.ingest_one.
  apply (stable_bind keeps_trans).
  - apply (stable_mono holds_keeps), scores_holds.
  - intro rmscore. destruct (argmax rmscore) as [am|]; [|apply spawn_keeps].
    destruct (nth_error rmscore am) as [best|]; [|apply stable_raise, keeps_refl].
    destruct (Qlt_bool 7 best); [|apply spawn_keeps].
    destruct (nth_error (TrackerList.to_remove loc) am);
      [apply claim_keeps | apply stable_raise, keeps_refl].
Qed.

Lemma ingest_loop_keeps fr lbox : forall loc, stable keeps (TrackerList.ingest_loop fr lbox loc).
Proof.
  induction lbox as [|bb r IH]; simpl; intro loc.
  - apply stable_ret, keeps_refl.
  - apply (stable_bind keeps_trans); [apply ingest_one_keeps | exact IH].
Qed.
End RegistryFacts.

(* ===================================================================== *)
(** ** One pass of ingest_detection *)
(* ===================================================================== *)

Lemma zrange_snoc n : forall a, zrange a (S n) = zrange a n ++ [a + Z.of_nat n].
Proof.
  induction n as [|n IH]; intro a.
  - simpl. now rewrite Z.add_0_r.
  - change (zrange a (S (S n))) with (a :: zrange (a + 1) (S n)).
    rewrite IH. simpl. do 2 f_equal. f_equal. lia.
Qed.

Lemma zrange_in n : forall a k, In k (zrange a n) <-> a <= k < a + Z.of_nat n.
Proof.
  induction n as [|n IH]; intros a k; simpl.
  - lia.
  - rewrite IH. lia.
Qed.

Lemma zrange_length n : forall a, List.length (zrange a n) = n.
Proof. induction n as [|n IH]; intro a; simpl; [reflexivity | now rewrite IH]. Qed.

Lemma NoDup_snoc {A} (l : list A) (x : A) : NoDup l -> ~ In x l -> NoDup (l ++ [x]).
Proof.
  induction l as [|y r IH]; simpl; intros Hn Hx.
  - constructor; [tauto | constructor].
  - inversion Hn as [|? ? Hy Hr]; subst. constructor.
    + rewrite in_app_iff. simpl. intros [?|[?|[]]]; [tauto | subst; tauto].
    + apply IH; tauto.
Qed.


Section Pass.
Context `{E : Extern}.
Variables (fr : frame) (boxes : list rectangle) (keys0 : list Z) (i0 : Z).
Hypothesis keys0_below : forall k, In k keys0 -> k < i0.

Lemma spawn_run bb loc reg (tr : trace) :
  TrackerList.spawn fr bb loc (reg, tr) =
  (Ret {| TrackerList.to_remove := TrackerList.to_remove loc;
          TrackerList.to_add :=
            dict_set (TrackerList.i reg) (started fr bb (TrackerList.i reg))
                     (TrackerList.to_add loc) |},
   ({| TrackerList.d := TrackerList.d reg; TrackerList.i := TrackerList.i reg + 1 |},
    tr ++ [EvStart (TrackerList.i reg) fr bb])).
Proof. reflexivity. Qed.

Lemma claim_run bb idrm loc reg (tr : trace) :
  TrackerList.claim fr bb idrm loc (reg, tr) =
  (Ret {| TrackerList.to_remove := list_remove idrm (TrackerList.to_remove loc);
          TrackerList.to_add :=
            dict_set idrm (started fr bb idrm) (TrackerList.to_add loc) |},
   (reg, tr ++ [EvStart idrm fr bb])).
Proof. reflexivity. Qed.

Lemma loop_inv_holds n loc reg reg' :
  loop_inv fr boxes keys0 i0 n loc reg -> holds reg reg' ->
  loop_inv fr boxes keys0 i0 n loc reg'.
Proof.
  intros [Hk Hc Hpi Hpn Han Hsrc Hst Hsp Hlen] (K & I & _).
  constructor; rewrite ?I; try assumption. congruence.
Qed.

Lemma spawn_inv n bb loc reg :
  loop_inv fr boxes keys0 i0 n loc reg -> In bb boxes ->
  loop_inv fr boxes keys0 i0 (S n)
    {| TrackerList.to_remove := TrackerList.to_remove loc;
       TrackerList.to_add :=
         dict_set (TrackerList.i reg) (started fr bb (TrackerList.i reg))
                  (TrackerList.to_add loc) |}
    {| TrackerList.d := TrackerList.d reg; TrackerList.i := TrackerList.i reg + 1 |}.
Proof.
  intros [Hk Hc Hpi Hpn Han Hsrc Hst Hsp Hlen] Hbb.
  assert (Hfresh : ~ In (TrackerList.i reg) (dict_keys (TrackerList.to_add loc))).
  { intro Hin. apply Hsrc in Hin. destruct Hin as [[Hin _]|Hin]; [|lia].
    apply keys0_below in Hin. lia. }
  constructor; simpl; try assumption.
  - lia.
  - rewrite dict_keys_set_notin by assumption. now apply NoDup_snoc.
  - intro k. rewrite dict_keys_set_notin by assumption.
    rewrite in_app_iff, Hsrc. simpl. split.
    + intros [[H|H]|[H|[]]]; [now left | right; lia | right; lia].
    + intros [H|H]; [left; now left|].
      destruct (Z.eq_dec k (TrackerList.i reg)); [right; left; congruence|].
      left; right; lia.
  - intros k trk Hin. apply dict_set_in in Hin. destruct Hin as [[-> ->]|Hin]; eauto.
  - rewrite dict_keys_set_notin by assumption.
    rewrite filter_app, Hsp. simpl.
    destruct (Z.leb_spec i0 (TrackerList.i reg)); [|lia].
    replace (Z.to_nat (TrackerList.i reg + 1 - i0))
      with (S (Z.to_nat (TrackerList.i reg - i0))) by lia.
    rewrite zrange_snoc. do 2 f_equal. lia.
  - rewrite dict_set_length_notin by assumption. now rewrite Hlen.
Qed.

Lemma claim_inv n bb idrm loc reg :
  loop_inv fr boxes keys0 i0 n loc reg -> In bb boxes ->
  In idrm (TrackerList.to_remove loc) ->
  loop_inv fr boxes keys0 i0 (S n)
    {| TrackerList.to_remove := list_remove idrm (TrackerList.to_remove loc);
       TrackerList.to_add :=
         dict_set idrm (started fr bb idrm) (TrackerList.to_add loc) |}
    reg.
Proof.
  intros [Hk Hc Hpi Hpn Han Hsrc Hst Hsp Hlen] Hbb Hid.
  assert (Hlow : idrm < i0) by (apply keys0_below, Hpi, Hid).
  assert (Hfresh : ~ In idrm (dict_keys (TrackerList.to_add loc))).
  { intro Hin. apply Hsrc in Hin. destruct Hin as [[_ Hin]|Hin]; [tauto | lia]. }
  constructor; simpl; try assumption.
  - intros k Hin. apply Hpi. now apply (list_remove_incl idrm).
  - now apply list_remove_nodup.
  - rewrite dict_keys_set_notin by assumption. now apply NoDup_snoc.
  - intro k. rewrite dict_keys_set_notin by assumption.
    rewrite in_app_iff, Hsrc, (list_remove_in idrm k Hpn). simpl. split.
    + intros [[[H1 H2]|H]|[H|[]]].
      * left. split; [assumption | tauto].
      * now right.
      * subst k. left. split; [now apply Hpi | tauto].
    + intros [[H1 H2]|H]; [|left; now right].
      destruct (Z.eq_dec k idrm); [right; left; congruence|].
      left; left. split; [assumption | tauto].
  - intros k trk Hin. apply dict_set_in in Hin. destruct Hin as [[-> ->]|Hin]; eauto.
  - rewrite dict_keys_set_notin by assumption.
    rewrite filter_app, Hsp. simpl.
    destruct (Z.leb_spec i0 idrm); [lia|]. now rewrite app_nil_r.
  - rewrite dict_set_length_notin by assumption. now rewrite Hlen.
Qed.

Lemma ingest_one_inv n bb loc s loc' s' :
  loop_inv fr boxes keys0 i0 n loc (fst s) -> In bb boxes ->
  TrackerList.ingest_one fr bb loc s = (Ret loc', s') ->
  loop_inv fr boxes keys0 i0 (S n) loc' (fst s').
Proof.
  intros Hinv Hbb. unfold TrackerList.ingest_one, bind.
  pose proof (scores_holds fr bb (TrackerList.to_remove loc) s) as Hh.
  destruct (comprehension (TrackerList.to_remove loc) (TrackerList.score fr bb) s)
    as [[rmscore|e] [reg1 tr1]]; simpl in Hh; [|discriminate].
  pose proof (loop_inv_holds Hinv Hh) as Hinv1.
  assert (Hspawn : TrackerList.spawn fr bb loc (reg1, tr1) = (Ret loc', s') ->
                   loop_inv fr boxes keys0 i0 (S n) loc' (fst s')).
  { rewrite spawn_run. intro H. injection H as <- <-. simpl. now apply spawn_inv. }
  destruct (argmax rmscore) as [am|]; [|exact Hspawn].
  destruct (nth_error rmscore am) as [best|]; [|discriminate].
  destruct (Qlt_bool 7 best); [|exact Hspawn].
  destruct (nth_error (TrackerList.to_remove loc) am) as [idrm|] eqn:Hn; [|discriminate].
  rewrite claim_run. intro H. injection H as <- <-. simpl.
  apply claim_inv; try assumption. eapply nth_error_In; eauto.
Qed.

Lemma ingest_loop_inv lbox : forall n loc s loc' s',
  loop_inv fr boxes keys0 i0 n loc (fst s) -> incl lbox boxes ->
  TrackerList.ingest_loop fr lbox loc s = (Ret loc', s') ->
  loop_inv fr boxes keys0 i0 (n + List.length lbox) loc' (fst s').
Proof.
  induction lbox as [|bb r IH]; simpl; intros n loc s loc' s' Hinv Hincl.
  - unfold ret. intro H. injection H as <- <-. now rewrite Nat.add_0_r.
  - unfold bind. destruct (TrackerList.ingest_one fr bb loc s) as [[loc1|e] s1] eqn:H1;
      [|discriminate].
    intro H. replace (n + S (List.length r))%nat with (S n + List.length r)%nat by lia.
    eapply IH; [| |exact H].
    + eapply ingest_one_inv; eauto. apply Hincl. now left.
    + intros x Hx. apply Hincl. now right.
Qed.
End Pass.

(* ===================================================================== *)
(** ** Scores of a pass *)
(* ===================================================================== *)

Section Scores.
Context `{E : Extern}.

Lemma inject_Z_nonneg z : 0 <= z -> (0 <= inject_Z z)%Q.
Proof. intro H. unfold Qle. simpl. lia. Qed.

Lemma inject_Z_pos z : 0 < z -> (0 < inject_Z z)%Q.
Proof. intro H. unfold Qlt. simpl. lia. Qed.

Lemma inject_Z_le a b : a <= b -> (inject_Z a <= inject_Z b)%Q.
Proof. intro H. unfold Qle. simpl. lia. Qed.

Lemma iou_den_pos (s : Tracker.self) (bb : rectangle) :
  nonneg_areas -> 0 < rect_area bb -> (0 < iou_den s bb)%Q.
Proof.
  intros [Hd Hr] Hbb. unfold iou_den, Tracker.intersect_area.
  pose proof (Hd (ct_get_position (Tracker.t s))) as H1.
  pose proof (@inject_Z_nonneg _ (Hr bb
    (Rectangle (py_int (dleft (ct_get_position (Tracker.t s))))
               (py_int (dtop (ct_get_position (Tracker.t s))))
               (py_int (dright (ct_get_position (Tracker.t s))))
               (py_int (dbottom (ct_get_position (Tracker.t s))))))) as H2.
  pose proof (@inject_Z_pos _ Hbb) as H3. lra.
Qed.

Lemma iou_returns (s : Tracker.self) (bb : rectangle) :
  nonneg_areas -> 0 < rect_area bb ->
  Tracker.iou s bb = Ret (inject_Z (Tracker.intersect_area s bb) / iou_den s bb)%Q.
Proof.
  intros Hn Hbb. apply iou_nonzero_den.
  pose proof (@iou_den_pos s bb Hn Hbb). lra.
Qed.

Lemma iou_value_le_half (s : Tracker.self) (bb : rectangle) :
  nonneg_areas -> intersection_within -> 0 < rect_area bb ->
  (inject_Z (Tracker.intersect_area s bb) / iou_den s bb <= 1 # 2)%Q.
Proof.
  intros Hn Hw Hbb. pose proof (@iou_den_pos s bb Hn Hbb) as Hpos.
  apply Qle_shift_div_r; [exact Hpos|].
  unfold iou_den in *. destruct Hn as [Hd _].
  pose proof (Hd (ct_get_position (Tracker.t s))) as H1.
  assert (H2 : (inject_Z (Tracker.intersect_area s bb) <= inject_Z (rect_area bb))%Q)
    by (apply inject_Z_le, Hw).
  lra.
Qed.

Lemma iou_value_le_third (s : Tracker.self) (bb : rectangle) :
  nonneg_areas -> intersection_within -> 0 < rect_area bb ->
  (inject_Z (Tracker.intersect_area s bb)
   <= drect_area (ct_get_position (Tracker.t s)))%Q ->
  (inject_Z (Tracker.intersect_area s bb) / iou_den s bb <= 1 # 3)%Q.
Proof.
  intros Hn Hw Hbb Hin. pose proof (@iou_den_pos s bb Hn Hbb) as Hpos.
  apply Qle_shift_div_r; [exact Hpos|].
  unfold iou_den in *.
  assert (H2 : (inject_Z (Tracker.intersect_area s bb) <= inject_Z (rect_area bb))%Q)
    by (apply inject_Z_le, Hw).
  lra.
Qed.

(** With areas that are not negative and a box of positive area, a score
    is computed for every live track of the pool. *)
Lemma score_total fr bb k s :
  nonneg_areas -> 0 < rect_area bb ->
  In k (dict_keys (TrackerList.d (fst s))) ->
  exists q s', TrackerList.score fr bb k s = (Ret q, s').
Proof.
  intros Hn Hbb Hin. destruct (@dict_in_keys_get _ _ _ Hin) as [trk G].
  unfold TrackerList.score, bind, TrackerList.read_key. rewrite G.
  rewrite (@iou_returns trk bb Hn Hbb).
  destruct (Qlt_bool _ _).
  - unfold TrackerList.at_key. rewrite G. do 2 eexists. reflexivity.
  - unfold ret. eauto.
Qed.

(** With, moreover, intersections that lie within the box, the score is
    0 and nothing changes. *)
Lemma score_zero fr bb k s :
  nonneg_areas -> intersection_within -> 0 < rect_area bb ->
  In k (dict_keys (TrackerList.d (fst s))) ->
  TrackerList.score fr bb k s = (Ret 0%Q, s).
Proof.
  intros Hn Hw Hbb Hin. destruct (@dict_in_keys_get _ _ _ Hin) as [trk G].
  unfold TrackerList.score, bind, TrackerList.read_key. rewrite G.
  rewrite (@iou_returns trk bb Hn Hbb).
  rewrite (proj2 (Qlt_bool_false_iff _ _) (@iou_value_le_half trk bb Hn Hw Hbb)).
  reflexivity.
Qed.

Lemma scores_total fr bb l : forall s,
  nonneg_areas -> 0 < rect_area bb ->
  incl l (dict_keys (TrackerList.d (fst s))) ->
  exists qs s', comprehension l (TrackerList.score fr bb) s = (Ret qs, s')
                /\ List.length qs = List.length l.
Proof.
  induction l as [|k r IH]; simpl; intros s Hn Hbb Hincl.
  - unfold ret. eauto.
  - destruct (@score_total fr bb k s Hn Hbb) as (q & s1 & Hq); [apply Hincl; now left|].
    pose proof (score_holds fr bb k s) as Hh. rewrite Hq in Hh. simpl in Hh.
    destruct (IH s1 Hn Hbb) as (qs & s2 & Hqs & Hlen).
    { destruct Hh as (K & _). rewrite K. intros x Hx. apply Hincl. now right. }
    exists (q :: qs), s2. unfold bind. rewrite Hq, Hqs. simpl. split; [reflexivity | congruence].
Qed.

Lemma scores_zero fr bb l : forall s,
  nonneg_areas -> intersection_within -> 0 < rect_area bb ->
  incl l (dict_keys (TrackerList.d (fst s))) ->
  comprehension l (TrackerList.score fr bb) s = (Ret (repeat 0%Q (List.length l)), s).
Proof.
  induction l as [|k r IH]; simpl; intros s Hn Hw Hbb Hincl.
  - reflexivity.
  - unfold bind. rewrite (@score_zero fr bb k s Hn Hw Hbb) by (apply Hincl; now left).
    rewrite IH; auto. intros x Hx. apply Hincl. now right.
Qed.
End Scores.

Section PassReturns.
Context `{E : Extern}.
Variables (fr : frame) (boxes : list rectangle) (keys0 : list Z) (i0 : Z).
Hypothesis keys0_below : forall k, In k keys0 -> k < i0.
Hypothesis areas : nonneg_areas.
Hypothesis boxes_pos : forall bb, In bb boxes -> 0 < rect_area bb.

Lemma ingest_one_total bb loc s :
  In bb boxes ->
  incl (TrackerList.to_remove loc) (dict_keys (TrackerList.d (fst s))) ->
  exists loc' s', TrackerList.ingest_one fr bb loc s = (Ret loc', s').
Proof.
  intros Hbb Hincl.
  destruct (@scores_total _ fr bb (TrackerList.to_remove loc) s areas (boxes_pos _ Hbb) Hincl)
    as (rmscore & [reg1 tr1] & Hrun & Hlen).
  unfold TrackerList.ingest_one, bind. rewrite Hrun.
  destruct (argmax rmscore) as [am|] eqn:Ham; [|rewrite spawn_run; eauto].
  apply argmax_bound in Ham.
  destruct (nth_error rmscore am) as [best|] eqn:Hb;
    [|apply nth_error_None in Hb; lia].
  destruct (Qlt_bool 7 best); [|rewrite spawn_run; eauto].
  destruct (nth_error (TrackerList.to_remove loc) am) as [idrm|] eqn:Hi;
    [|apply nth_error_None in Hi; lia].
  rewrite claim_run. eauto.
Qed.

Lemma ingest_loop_total lbox : forall n loc s,
  incl lbox boxes ->
  loop_inv fr boxes keys0 i0 n loc (fst s) ->
  exists loc' s', TrackerList.ingest_loop fr lbox loc s = (Ret loc', s').
Proof.
  induction lbox as [|bb r IH]; simpl; intros n loc s Hincl Hinv.
  - unfold ret. eauto.
  - assert (Hbb : In bb boxes) by (apply Hincl; now left).
    destruct (@ingest_one_total bb loc s Hbb) as (loc1 & s1 & H1).
    { rewrite (li_keys Hinv). exact (li_pool_incl Hinv). }
    pose proof (ingest_one_inv keys0_below _ _ Hinv Hbb H1) as Hinv1.
    destruct (IH (S n) loc1 s1) as (loc2 & s2 & H2); [|exact Hinv1|].
    { intros x Hx. apply Hincl. now right. }
    exists loc2, s2. unfold bind. now rewrite H1.
Qed.
End PassReturns.

(** The pass as it begins: every live id in the pool, nothing added. *)
Lemma loop_inv_start `{E : Extern} fr boxes reg :
  wf reg ->
  loop_inv fr boxes (dict_keys (TrackerList.d reg)) (TrackerList.i reg) 0
    {| TrackerList.to_remove := dict_keys (TrackerList.d reg); TrackerList.to_add := [] |}
    reg.
Proof.
  intros [Hn Hb Hc Ht]. constructor; simpl.
  - reflexivity.
  - lia.
  - apply incl_refl.
  - assumption.
  - constructor.
  - intro k. split; [tauto | intros [[? ?]|?]; [tauto | lia]].
  - intros k trk [].
  - now rewrite Z.sub_diag.
  - reflexivity.
Qed.

Lemma ingest_detection_unfold `{E : Extern} fr lbox (s : TrackerList.self * trace) :
  TrackerList.ingest_detection fr lbox s =
  match TrackerList.ingest_loop fr lbox
          {| TrackerList.to_remove := dict_keys (TrackerList.d (fst s));
             TrackerList.to_add := [] |} s with
  | (Ret loc, s') =>
      (Ret tt, ({| TrackerList.d := TrackerList.to_add loc;
                   TrackerList.i := TrackerList.i (fst s') |}, snd s'))
  | (Raise e, s') => (Raise e, s')
  end.
Proof. reflexivity. Qed.

(** C2.  With areas that are not negative and detections of positive
    area, [ingest_detection] on a well-formed registry returns, and the
    registry it leaves holds exactly [to_add]: an id is live afterwards if
    and only if it was live before and left the pool of unmatched tracks
    in this pass (it was rebound) or it was allocated from the counter in
    this pass (it was spawned); every id still in the pool at the end was
    live before and is not live afterwards, whatever the state of its
    tracker; every live track is a tracker started on this frame at one
    of the detections, and there is one per detection. *)
Theorem ingest_detection_live_set `{E : Extern}
  (fr : frame) (lbox : list rectangle) (reg : TrackerList.self) (tr : trace) :
  wf reg -> nonneg_areas -> (forall bb, In bb lbox -> 0 < rect_area bb) ->
  exists loc reg1 tr1,
    TrackerList.ingest_loop fr lbox
      {| TrackerList.to_remove := dict_keys (TrackerList.d reg);
         TrackerList.to_add := [] |} (reg, tr) = (Ret loc, (reg1, tr1))
    /\ TrackerList.ingest_detection fr lbox (reg, tr)
       = (Ret tt, ({| TrackerList.d := TrackerList.to_add loc;
                      TrackerList.i := TrackerList.i reg1 |}, tr1))
    /\ (forall k, In k (dict_keys (TrackerList.to_add loc)) <->
          (In k (dict_keys (TrackerList.d reg)) /\ ~ In k (TrackerList.to_remove loc))
          \/ TrackerList.i reg <= k < TrackerList.i reg1)
    /\ (forall k, In k (TrackerList.to_remove loc) ->
          In k (dict_keys (TrackerList.d reg))
          /\ ~ In k (dict_keys (TrackerList.to_add loc)))
    /\ (forall k trk, In (k, trk) (TrackerList.to_add loc) ->
          exists bb, In bb lbox /\ trk = started fr bb k)
    /\ NoDup (dict_keys (TrackerList.to_add loc))
    /\ List.length (TrackerList.to_add loc) = List.length lbox.
Proof.
  intros Hwf Hareas Hpos.
  assert (Hbelow : forall k, In k (dict_keys (TrackerList.d reg)) -> k < TrackerList.i reg)
    by (intros k Hk; apply (wf_below Hwf) in Hk; lia).
  pose proof (loop_inv_start fr lbox Hwf) as Hstart.
  destruct (@ingest_loop_total _ fr lbox _ _ Hbelow Hareas Hpos lbox 0%nat _ (reg, tr)
              (incl_refl _) Hstart) as (loc & [reg1 tr1] & Hloop).
  pose proof (@ingest_loop_inv _ fr lbox _ _ Hbelow lbox 0%nat _ (reg, tr) _ _
                Hstart (incl_refl _) Hloop) as Hinv.
  simpl in Hinv. destruct Hinv as [Hk Hc Hpi Hpn Han Hsrc Hst Hsp Hlen].
  exists loc, reg1, tr1. repeat split; try assumption.
  - rewrite ingest_detection_unfold. simpl. now rewrite Hloop.
  - now apply Hsrc.
  - now apply Hsrc.
  - now apply Hpi.
  - intro Hin. apply Hsrc in Hin. destruct Hin as [[_ Hin]|Hin]; [tauto|].
    apply Hpi, Hbelow in H. lia.
Qed.

(* ===================================================================== *)
(** ** A pass under the arithmetic of rectangles *)
(* ===================================================================== *)

Lemma dict_set_fresh {V} (k : Z) (v : V) (m : dict V) :
  ~ In k (dict_keys m) -> dict_set k v m = m ++ [(k, v)].
Proof.
  induction m as [|[k' v'] r IH]; simpl; [reflexivity|].
  destruct (Z.eqb_spec k k'); intro H.
  - exfalso. apply H. left. congruence.
  - f_equal. apply IH. tauto.
Qed.

Section LawfulPass.
Context `{E : Extern}.
Variable fr : frame.
Hypothesis areas : nonneg_areas.
Hypothesis within : intersection_within.

Lemma ingest_one_spawns bb loc reg (tr : trace) :
  0 < rect_area bb ->
  incl (TrackerList.to_remove loc) (dict_keys (TrackerList.d reg)) ->
  TrackerList.ingest_one fr bb loc (reg, tr) = TrackerList.spawn fr bb loc (reg, tr).
Proof.
  intros Hbb Hincl. unfold TrackerList.ingest_one, bind.
  rewrite (@scores_zero _ fr bb _ (reg, tr) areas within Hbb Hincl).
  destruct (argmax _) as [am|] eqn:Ham; [|reflexivity].
  apply argmax_bound in Ham. rewrite repeat_length in Ham.
  destruct (nth_error _ am) as [best|] eqn:Hb.
  - apply nth_error_In, repeat_spec in Hb. subst best. reflexivity.
  - apply nth_error_None in Hb. rewrite repeat_length in Hb. lia.
Qed.

Lemma ingest_loop_spawns lbox : forall loc reg (tr : trace),
  (forall bb, In bb lbox -> 0 < rect_area bb) ->
  incl (TrackerList.to_remove loc) (dict_keys (TrackerList.d reg)) ->
  (forall k, In k (dict_keys (TrackerList.to_add loc)) -> k < TrackerList.i reg) ->
  TrackerList.ingest_loop fr lbox loc (reg, tr) =
  (Ret {| TrackerList.to_remove := TrackerList.to_remove loc;
          TrackerList.to_add :=
            TrackerList.to_add loc ++ spawned fr lbox (TrackerList.i reg) |},
   ({| TrackerList.d := TrackerList.d reg;
       TrackerList.i := TrackerList.i reg + Z.of_nat (List.length lbox) |},
    tr ++ starts fr lbox (TrackerList.i reg))).
Proof.
  induction lbox as [|bb r IH]; intros loc reg tr Hpos Hincl Hlow.
  - simpl. unfold ret. rewrite !app_nil_r, Z.add_0_r. now destruct loc, reg.
  - cbn [TrackerList.ingest_loop]. unfold bind.
    rewrite ingest_one_spawns by (auto; apply Hpos; now left).
    rewrite spawn_run.
    assert (Hfresh : ~ In (TrackerList.i reg) (dict_keys (TrackerList.to_add loc)))
      by (intro Hin; apply Hlow in Hin; lia).
    rewrite IH; cbn [TrackerList.to_remove TrackerList.to_add TrackerList.d TrackerList.i].
    + rewrite dict_set_fresh by exact Hfresh. rewrite <- !app_assoc.
      cbn [spawned starts app List.length].
      replace (TrackerList.i reg + 1 + Z.of_nat (List.length r))
        with (TrackerList.i reg + Z.of_nat (S (List.length r))) by lia.
      reflexivity.
    + intros x Hx. apply Hpos. now right.
    + exact Hincl.
    + intros k Hk. rewrite dict_keys_set_notin, in_app_iff in Hk by exact Hfresh.
      destruct Hk as [Hk|[Hk|[]]]; [apply Hlow in Hk; lia | lia].
Qed.

Lemma spawned_keys lbox : forall n,
  dict_keys (spawned fr lbox n) = zrange n (List.length lbox).
Proof.
  induction lbox as [|bb r IH]; intro n; simpl; [reflexivity|]. now rewrite IH.
Qed.

Lemma starts_no_probe lbox : forall n,
  Forall (fun e => is_probe e = false) (starts fr lbox n).
Proof.
  induction lbox as [|bb r IH]; intro n; simpl; constructor; auto.
Qed.
End LawfulPass.

(** C10, as the code has it.  With areas that are not negative, boxes
    that contain their intersections, and detections of positive area:
    for every tracker and every box of positive area [iou] returns the
    intersection divided by the sum of the intersection and the two
    areas; that value is at most 1/2, and at most 1/3 when the
    intersection is at most the area of the tracker's box; it never
    passes the test [> 0.5].  So every score of a pass is 0 and leaves
    the registry and the log untouched, and [ingest_detection] returns
    with one new track per detection, ids taken from the counter in the
    order of the detections; the only calls of the primitive are the
    starts of these tracks, none is a probe; and no id that was live in a
    well-formed registry before the pass is live after it. *)
Theorem iou_never_exceeds_half `{E : Extern}
  (fr : frame) (lbox : list rectangle) (reg : TrackerList.self) (tr : trace) :
  nonneg_areas -> intersection_within ->
  (forall bb, In bb lbox -> 0 < rect_area bb) ->
  (forall s bb, 0 < rect_area bb ->
     exists v, Tracker.iou s bb = Ret v
       /\ v = (inject_Z (Tracker.intersect_area s bb) / iou_den s bb)%Q
       /\ (v <= 1 # 2)%Q
       /\ Qlt_bool (1 # 2) v = false
       /\ ((inject_Z (Tracker.intersect_area s bb)
            <= drect_area (ct_get_position (Tracker.t s)))%Q -> (v <= 1 # 3)%Q))
  /\ (forall bb k s, In bb lbox -> In k (dict_keys (TrackerList.d (fst s))) ->
        TrackerList.score fr bb k s = (Ret 0%Q, s))
  /\ TrackerList.ingest_detection fr lbox (reg, tr)
     = (Ret tt,
        ({| TrackerList.d := spawned fr lbox (TrackerList.i reg);
            TrackerList.i := TrackerList.i reg + Z.of_nat (List.length lbox) |},
         tr ++ starts fr lbox (TrackerList.i reg)))
  /\ Forall (fun e => is_probe e = false) (starts fr lbox (TrackerList.i reg))
  /\ (wf reg -> forall k, In k (dict_keys (TrackerList.d reg)) ->
        ~ In k (dict_keys (spawned fr lbox (TrackerList.i reg)))).
Proof.
  intros Hareas Hwithin Hpos. repeat split.
  - intros s bb Hbb. eexists. split; [apply (@iou_returns _ s bb Hareas Hbb)|].
    split; [reflexivity|].
    pose proof (@iou_value_le_half _ s bb Hareas Hwithin Hbb) as Hhalf.
    split; [exact Hhalf|]. split; [now apply Qlt_bool_false_iff|].
    apply iou_value_le_third; assumption.
  - intros bb k s Hbb Hk. apply score_zero; auto.
  - rewrite ingest_detection_unfold.
    rewrite (@ingest_loop_spawns _ fr Hareas Hwithin lbox _ reg tr Hpos);
      [reflexivity | apply incl_refl | intros k []].
  - apply starts_no_probe.
  - intros Hwf k Hk Hin. rewrite spawned_keys, zrange_in in Hin.
    apply (wf_below Hwf) in Hk. lia.
Qed.

(* ===================================================================== *)
(** ** Ids over the life of a registry *)
(* ===================================================================== *)

Section Lifetime.
Context `{E : Extern}.











End Lifetime.

(* ===================================================================== *)
(** ** Retirement and the scheduler *)
(* ===================================================================== *)

Section Scheduling.
Context `{E : Extern}.

(** C5, on the code.  When the first live track propagates on a new frame
    with a quality that is not below 7, [TrackerList.update] raises
    NameError on the name [frame] of [is_in_frame]: the track has been
    propagated, it is not removed, wherever its box now lies, and the
    tracks after it are not visited. *)
Theorem update_raises_on_healthy_track
  (fr : frame) (k : Z) (trk : Tracker.self) (rest : dict Tracker.self)
  (n : Z) (tr : trace) :
  frame_ne fr (Tracker.last_frame trk) = true ->
  Qlt_bool (snd (ct_update (Tracker.t trk) fr)) 7 = false ->
  TrackerList.update fr ({| TrackerList.d := (k, trk) :: rest; TrackerList.i := n |}, tr)
  = (Raise (NameError "frame"),
     ({| TrackerList.d :=
           (k, {| Tracker.last_frame := fr;
                  Tracker.t := fst (ct_update (Tracker.t trk) fr);
                  Tracker.tid := Tracker.tid trk;
                  Tracker.update_val := Some (snd (ct_update (Tracker.t trk) fr)) |})
           :: rest;
         TrackerList.i := n |},
      tr ++ [EvUpdate (Tracker.tid trk) fr])).
Proof.
  intros Hne Hq.
  unfold TrackerList.update, bind, gets. cbn [fst snd TrackerList.d dict_keys map for_each].
  unfold bind, TrackerList.update_one, bind, TrackerList.at_key.
  cbn [fst snd TrackerList.d TrackerList.i dict_get]. rewrite Z.eqb_refl.
  rewrite update_new_frame by exact Hne.
  cbn [fst snd dict_set]. rewrite Z.eqb_refl, Hq.
  unfold TrackerList.read_key. cbn [fst snd TrackerList.d dict_get].
  rewrite Z.eqb_refl. reflexivity.
Qed.

(** The other branch of the test: a quality below 7 removes the track
    without asking [is_in_frame], and the loop goes on with the rest. *)
Lemma update_drops_lost_track
  (fr : frame) (k : Z) (trk : Tracker.self) (rest : dict Tracker.self)
  (n : Z) (tr : trace) :
  frame_ne fr (Tracker.last_frame trk) = true ->
  Qlt_bool (snd (ct_update (Tracker.t trk) fr)) 7 = true ->
  TrackerList.update fr ({| TrackerList.d := (k, trk) :: rest; TrackerList.i := n |}, tr)
  = for_each (dict_keys rest) (TrackerList.update_one fr)
      ({| TrackerList.d := rest; TrackerList.i := n |},
       tr ++ [EvUpdate (Tracker.tid trk) fr]).
Proof.
  intros Hne Hq.
  unfold TrackerList.update, bind, gets. cbn [fst snd TrackerList.d dict_keys map for_each].
  unfold bind at 1. unfold TrackerList.update_one at 1. unfold bind, TrackerList.at_key.
  cbn [fst snd TrackerList.d TrackerList.i dict_get]. rewrite Z.eqb_refl.
  rewrite update_new_frame by exact Hne.
  cbn [fst snd dict_set]. rewrite Z.eqb_refl, Hq.
  unfold ret, TrackerList.del_key. cbn [fst snd TrackerList.d TrackerList.i dict_get dict_del].
  rewrite Z.eqb_refl. reflexivity.
Qed.

(** C6, on the code.  [__call__] raises NameError on the name [tl] at
    its first statement, for every scheduler and every frame: the
    registry is not propagated, the detector is not invoked and the frame
    counter is not incremented; so after any sequence of frames the
    scheduler and the log are what they were. *)
Theorem call_raises_before_propagating
  (self : TrackerDetector.self) (frames : list frame) (tr : trace) :
  (forall fr, TrackerDetector.call fr (self, tr) = (Raise (NameError "tl"), (self, tr)))
  /\ calls frames (self, tr) = (self, tr)
  /\ TrackerDetector.iframe (fst (calls frames (self, tr))) = TrackerDetector.iframe self.
Proof.
  assert (H : calls frames (self, tr) = (self, tr)).
  { induction frames as [|fr r IH]; [reflexivity | exact IH]. }
  rewrite H. auto.
Qed.

(** C7, on the code.  The list lines 122 to 126 build holds one pair of a
    box and an id per live track, the ids being those of the registry in
    its order; but no call of [__call__] reaches these lines: its outcome
    is the NameError on [tl], never a list. *)
Theorem call_emits_nothing
  (self : TrackerDetector.self) (fr : frame) (tr : trace) :
  map snd (TrackerDetector.positions (TrackerDetector.tl self))
  = dict_keys (TrackerList.d (TrackerDetector.tl self))
  /\ List.length (TrackerDetector.positions (TrackerDetector.tl self))
     = List.length (TrackerList.d (TrackerDetector.tl self))
  /\ fst (TrackerDetector.call fr (self, tr)) = Raise (NameError "tl").
Proof.
  unfold TrackerDetector.positions, dict_keys.
  rewrite map_map, length_map. auto.
Qed.
End Scheduling.

(* ===================================================================== *)
(** ** The scripted instance: laws, runs, counterexamples *)
(* ===================================================================== *)

Section OnScripted.
Import Scripted Scenario.

Lemma scripted_area_nonneg (r : rectangle) : 0 <= area r.
Proof.
  unfold area. destruct (Z.leb_spec (left r) (right r)); simpl; [|lia].
  destruct (Z.leb_spec (top r) (bottom r)); [nia | lia].
Qed.

Lemma scripted_darea_nonneg (r : drectangle) : (0 <= darea r)%Q.
Proof.
  unfold darea.
  destruct (Qle_bool (dleft r) (dright r)) eqn:H1; simpl; [|apply Qle_refl].
  destruct (Qle_bool (dtop r) (dbottom r)) eqn:H2; [|apply Qle_refl].
  apply Qle_bool_iff in H1, H2. apply Qmult_le_0_compat; lra.
Qed.

Lemma scripted_nonneg : @nonneg_areas extern.
Proof.
  split; simpl.
  - apply scripted_darea_nonneg.
  - intros a b. apply scripted_area_nonneg.
Qed.

Lemma scripted_within : @intersection_within extern.
Proof.
  intros a b. simpl. unfold area, intersect. simpl.
  destruct (Z.leb_spec (Z.max (left a) (left b)) (Z.min (right a) (right b))); simpl.
  - destruct (Z.leb_spec (Z.max (top a) (top b)) (Z.min (bottom a) (bottom b))).
    + destruct (Z.leb_spec (left a) (right a)); [|lia]. simpl.
      destruct (Z.leb_spec (top a) (bottom a)); [|lia]. nia.
    + fold (area a). apply scripted_area_nonneg.
  - fold (area a). apply scripted_area_nonneg.
Qed.

Lemma registry0_wf : @wf extern registry0.
Proof.
  constructor; simpl.
  - constructor; [intros [] | constructor].
  - intros k [<-|[]]. lia.
  - lia.
  - intros k trk [H|[]]. now inversion H.
Qed.

Lemma scenario_boxes_pos : forall bb, In bb [bb1; bb2] -> 0 < @rect_area extern bb.
Proof. intros bb [<-|[<-|[]]]; reflexivity. Qed.

(** C4, on the code.  [registry0] holds one track, of id 0, at the box
    (0,0,10,10).  Both detections overlap it above 0.5 of
    intersection over union (the intersection is more than half the
    union: 100 of 100, and 90 of 100), and a restart of the primitive on
    [frame1] would score 9 at [bb1] and 8 at [bb2].  The pass gives each
    detection a new track, of ids 1 and 2, calls no probe, and drops the
    track of id 0. *)
Theorem greedy_scenario_spawns_both :
  (2 * area (intersect bb1 bb1) > area bb1 + area bb1 - area (intersect bb1 bb1))
  /\ (2 * area (intersect bb2 bb1) > area bb2 + area bb1 - area (intersect bb2 bb1))
  /\ snd (ct_update_guess (Tracker.t track0) frame1 bb1) = 9%Q
  /\ snd (ct_update_guess (Tracker.t track0) frame1 bb2) = 8%Q
  /\ TrackerList.ingest_detection frame1 [bb1; bb2] (registry0, [])
     = (Ret tt,
        ({| TrackerList.d := [(1, started frame1 bb1 1); (2, started frame1 bb2 2)];
            TrackerList.i := 3 |},
         [EvStart 1 frame1 bb1; EvStart 2 frame1 bb2])).
Proof. repeat split. Qed.

Lemma iou_identical_boxes_witness :
  0 < 100
  /\ @rect_area extern bb1 = 100
  /\ Tracker.intersect_area track0 bb1 = 100
  /\ (@drect_area extern (ct_get_position (Tracker.t track0)) == inject_Z 100)%Q
  /\ exists v, Tracker.iou track0 bb1 = Ret v /\ (v == 1 # 3)%Q /\ ~ (v == 1)%Q.
Proof.
  assert (H1 : 0 < 100) by lia.
  assert (H2 : @rect_area extern bb1 = 100) by reflexivity.
  assert (H3 : Tracker.intersect_area track0 bb1 = 100) by reflexivity.
  assert (H4 : (@drect_area extern (ct_get_position (Tracker.t track0)) == inject_Z 100)%Q)
    by reflexivity.
  repeat split; try assumption.
  exact (@iou_identical_boxes_is_third extern track0 bb1 100 H1 H2 H3 H4).
Defined.


Lemma ingest_detection_live_set_witness :
  @wf extern registry0 /\ @nonneg_areas extern
  /\ (forall bb, In bb [bb1; bb2] -> 0 < @rect_area extern bb)
  /\ exists loc reg1 tr1,
    TrackerList.ingest_loop frame1 [bb1; bb2]
      {| TrackerList.to_remove := dict_keys (TrackerList.d registry0);
         TrackerList.to_add := [] |} (registry0, []) = (Ret loc, (reg1, tr1))
    /\ TrackerList.ingest_detection frame1 [bb1; bb2] (registry0, [])
       = (Ret tt, ({| TrackerList.d := TrackerList.to_add loc;
                      TrackerList.i := TrackerList.i reg1 |}, tr1))
    /\ (forall k, In k (dict_keys (TrackerList.to_add loc)) <->
          (In k (dict_keys (TrackerList.d registry0)) /\ ~ In k (TrackerList.to_remove loc))
          \/ TrackerList.i registry0 <= k < TrackerList.i reg1)
    /\ (forall k, In k (TrackerList.to_remove loc) ->
          In k (dict_keys (TrackerList.d registry0))
          /\ ~ In k (dict_keys (TrackerList.to_add loc)))
    /\ (forall k trk, In (k, trk) (TrackerList.to_add loc) ->
          exists bb, In bb [bb1; bb2] /\ trk = started frame1 bb k)
    /\ NoDup (dict_keys (TrackerList.to_add loc))
    /\ List.length (TrackerList.to_add loc) = List.length [bb1; bb2].
Proof.
  split; [exact registry0_wf|]. split; [exact scripted_nonneg|].
  split; [exact scenario_boxes_pos|].
  exact (@ingest_detection_live_set extern frame1 [bb1; bb2] registry0 []
           registry0_wf scripted_nonneg scenario_boxes_pos).
Defined.

Lemma iou_never_exceeds_half_witness :
  @nonneg_areas extern /\ @intersection_within extern
  /\ (forall bb, In bb [bb1; bb2] -> 0 < @rect_area extern bb)
  /\ TrackerList.ingest_detection frame1 [bb1; bb2] (registry0, [])
     = (Ret tt,
        ({| TrackerList.d := spawned frame1 [bb1; bb2] (TrackerList.i registry0);
            TrackerList.i := TrackerList.i registry0 + Z.of_nat (List.length [bb1; bb2]) |},
         [] ++ starts frame1 [bb1; bb2] (TrackerList.i registry0))).
Proof.
  split; [exact scripted_nonneg|]. split; [exact scripted_within|].
  split; [exact scenario_boxes_pos|].
  exact (proj1 (proj2 (proj2
    (@iou_never_exceeds_half extern frame1 [bb1; bb2] registry0 []
       scripted_nonneg scripted_within scenario_boxes_pos)))).
Defined.

Lemma update_raises_on_healthy_track_witness :
  @frame_ne extern frame_exit (Tracker.last_frame track0) = true
  /\ Qlt_bool (snd (@ct_update extern (Tracker.t track0) frame_exit)) 7 = false
  /\ (dright (ct_get_position (fst (@ct_update extern (Tracker.t track0) frame_exit))) <= 0)%Q
  /\ TrackerList.update frame_exit
       ({| TrackerList.d := [(0, track0)]; TrackerList.i := 1 |}, [])
     = (Raise (NameError "frame"),
        ({| TrackerList.d :=
              [(0, {| Tracker.last_frame := frame_exit;
                      Tracker.t := fst (@ct_update extern (Tracker.t track0) frame_exit);
                      Tracker.tid := Tracker.tid track0;
                      Tracker.update_val :=
                        Some (snd (@ct_update extern (Tracker.t track0) frame_exit)) |})];
            TrackerList.i := 1 |},
         [] ++ [EvUpdate (Tracker.tid track0) frame_exit])).
Proof.
  assert (H1 : @frame_ne extern frame_exit (Tracker.last_frame track0) = true) by reflexivity.
  assert (H2 : Qlt_bool (snd (@ct_update extern (Tracker.t track0) frame_exit)) 7 = false)
    by reflexivity.
  split; [exact H1|]. split; [exact H2|].
  split; [vm_compute; discriminate|].
  exact (@update_raises_on_healthy_track extern frame_exit 0 track0 [] 1 [] H1 H2).
Defined.

(** C9, a counterexample.  The empty box against a tracker on the empty
    position: both areas and the intersection are zero, and [iou] raises
    ZeroDivisionError; it returns neither 0 nor any other value. *)
Lemma iou_zero_areas_raises :
  @rect_area extern bb_empty = 0
  /\ (@drect_area extern (ct_get_position (Tracker.t track_empty)) == 0)%Q
  /\ Tracker.intersect_area track_empty bb_empty = 0
  /\ Tracker.iou track_empty bb_empty = Raise ZeroDivisionError
  /\ Tracker.iou track_empty bb_empty <> Ret 0%Q.
Proof. repeat split. discriminate. Qed.

(** C10, a counterexample.  A tracker at (0.9, 0.9, 10, 10) against the
    box (0,0,10,10): the areas are 82.81 and 100, the intersection with
    the tracker's box truncated to integers is 100, and [iou] returns
    10000/28281, above 1/3.  And with the empty box against a tracker on
    the empty position, areas that are zero, no value is returned and the
    pass raises instead of spawning a track. *)
Lemma iou_exceeds_third :
  (0 <= @drect_area extern (ct_get_position (Tracker.t track_subpixel)))%Q
  /\ 0 <= @rect_area extern bb1
  /\ Tracker.iou track_subpixel bb1 = Ret (10000 # 28281)
  /\ (1 # 3 < 10000 # 28281)%Q
  /\ 0 <= @rect_area extern bb_empty
  /\ (0 <= @drect_area extern (ct_get_position (Tracker.t track_empty)))%Q
  /\ fst (TrackerList.ingest_detection frame1 [bb_empty] (registry_empty_track, []))
     = Raise ZeroDivisionError.
Proof. repeat split; vm_compute; congruence. Qed.
End OnScripted.

(* ===================================================================== *)
(** ** Further behaviour of Tracker and TrackerList *)
(* ===================================================================== *)

Section MoreTracking.
Context `{E : Extern}.








Lemma ingest_detection_lawful (fr : frame) (lbox : list rectangle)
  (reg : TrackerList.self) (tr : trace) :
  nonneg_areas -> intersection_within ->
  (forall bb, In bb lbox -> 0 < rect_area bb) ->
  TrackerList.ingest_detection fr lbox (reg, tr)
  = (Ret tt,
     ({| TrackerList.d := spawned fr lbox (TrackerList.i reg);
         TrackerList.i := TrackerList.i reg + Z.of_nat (List.length lbox) |},
      tr ++ starts fr lbox (TrackerList.i reg))).
Proof.
  intros Hareas Hwithin Hpos. rewrite ingest_detection_unfold.
  rewrite (@ingest_loop_spawns _ fr Hareas Hwithin lbox _ reg tr Hpos);
    [reflexivity | apply incl_refl | intros k []].
Qed.



(** X5.  With areas that are not negative and a box of positive area,
    [iou] returns a value that is not negative, equal to 0 when the
    intersection is empty and positive when it is not. *)
Theorem iou_zero_iff_no_overlap (s : Tracker.self) (bb : rectangle) :
  nonneg_areas -> 0 < rect_area bb ->
  exists v, Tracker.iou s bb = Ret v
    /\ (0 <= v)%Q
    /\ (Tracker.intersect_area s bb = 0 -> (v == 0)%Q)
    /\ (0 < Tracker.intersect_area s bb -> (0 < v)%Q).
Proof.
  intros Hn Hbb. pose proof (@iou_den_pos _ s bb Hn Hbb) as Hpos.
  exists (inject_Z (Tracker.intersect_area s bb) / iou_den s bb)%Q.
  split; [now apply iou_returns|].
  assert (Hinter : 0 <= Tracker.intersect_area s bb) by apply (proj2 Hn).
  split; [|split].
  - apply Qle_shift_div_l; [exact Hpos|]. rewrite Qmult_0_l.
    now apply inject_Z_nonneg.
  - intros ->. unfold Qdiv. now rewrite Qmult_0_l.
  - intro H. apply Qlt_shift_div_l; [exact Hpos|]. rewrite Qmult_0_l.
    now apply inject_Z_pos.
Qed.
End MoreTracking.

Section MorePasses.
Context `{E : Extern}.

Lemma ingest_loop_empty_pool (fr : frame) (lbox : list rectangle) :
  forall loc reg (tr : trace),
  TrackerList.to_remove loc = [] ->
  (forall k, In k (dict_keys (TrackerList.to_add loc)) -> k < TrackerList.i reg) ->
  TrackerList.ingest_loop fr lbox loc (reg, tr) =
  (Ret {| TrackerList.to_remove := [];
          TrackerList.to_add :=
            TrackerList.to_add loc ++ spawned fr lbox (TrackerList.i reg) |},
   ({| TrackerList.d := TrackerList.d reg;
       TrackerList.i := TrackerList.i reg + Z.of_nat (List.length lbox) |},
    tr ++ starts fr lbox (TrackerList.i reg))).
Proof.
  induction lbox as [|bb r IH]; intros loc reg tr Hpool Hlow.
  - simpl. unfold ret. rewrite !app_nil_r, Z.add_0_r. destruct loc, reg.
    simpl in Hpool. now subst.
  - cbn [TrackerList.ingest_loop]. unfold bind.
    assert (Hone : TrackerList.ingest_one fr bb loc (reg, tr)
                   = TrackerList.spawn fr bb loc (reg, tr)).
    { unfold TrackerList.ingest_one, bind. now rewrite Hpool. }
    rewrite Hone, spawn_run.
    assert (Hfresh : ~ In (TrackerList.i reg) (dict_keys (TrackerList.to_add loc)))
      by (intro Hin; apply Hlow in Hin; lia).
    rewrite IH; cbn [TrackerList.to_remove TrackerList.to_add TrackerList.d TrackerList.i].
    + rewrite dict_set_fresh by exact Hfresh. rewrite <- !app_assoc.
      cbn [spawned starts app List.length].
      replace (TrackerList.i reg + 1 + Z.of_nat (List.length r))
        with (TrackerList.i reg + Z.of_nat (S (List.length r))) by lia.
      reflexivity.
    + exact Hpool.
    + intros k Hk. rewrite dict_keys_set_notin, in_app_iff in Hk by exact Hfresh.
      destruct Hk as [Hk|[Hk|[]]]; [apply Hlow in Hk; lia | lia].
Qed.

(** X6.  On a registry with no live track [ingest_detection] never
    raises, whatever the boxes (degenerate ones included, no overlap is
    computed): it starts one track per detection, with consecutive ids
    from the counter in the order of the detections, and advances the
    counter by their number. *)
Theorem ingest_on_empty_registry
  (fr : frame) (lbox : list rectangle) (n : Z) (tr : trace) :
  TrackerList.ingest_detection fr lbox
    ({| TrackerList.d := []; TrackerList.i := n |}, tr)
  = (Ret tt,
     ({| TrackerList.d := spawned fr lbox n;
         TrackerList.i := n + Z.of_nat (List.length lbox) |},
      tr ++ starts fr lbox n)).
Proof.
  rewrite ingest_detection_unfold. cbn [fst TrackerList.d dict_keys map].
  rewrite ingest_loop_empty_pool; [reflexivity | reflexivity | intros k []].
Qed.

Lemma iou_outcomes (s : Tracker.self) (bb : rectangle) :
  Tracker.iou s bb = Raise ZeroDivisionError \/ exists v, Tracker.iou s bb = Ret v.
Proof.
  unfold Tracker.iou, py_div. destruct (Qeq_bool _ 0); [now left | right; eauto].
Qed.

Lemma score_outcomes fr bb k s :
  In k (dict_keys (TrackerList.d (fst s))) ->
  (exists q s', TrackerList.score fr bb k s = (Ret q, s'))
  \/ TrackerList.score fr bb k s = (Raise ZeroDivisionError, s).
Proof.
  intro Hin. destruct (@dict_in_keys_get _ _ _ Hin) as [trk G].
  unfold TrackerList.score, bind, TrackerList.read_key. rewrite G.
  destruct (iou_outcomes trk bb) as [->|[v ->]]; [now right|]. left.
  destruct (Qlt_bool _ _).
  - unfold TrackerList.at_key. rewrite G. do 2 eexists. reflexivity.
  - unfold ret. eauto.
Qed.

Lemma scores_outcomes fr bb l : forall s,
  incl l (dict_keys (TrackerList.d (fst s))) ->
  (exists qs s', comprehension l (TrackerList.score fr bb) s = (Ret qs, s')
                 /\ List.length qs = List.length l)
  \/ fst (comprehension l (TrackerList.score fr bb) s) = Raise ZeroDivisionError.
Proof.
  induction l as [|k r IH]; simpl; intros s Hincl.
  - left. unfold ret. eauto.
  - unfold bind.
    destruct (@score_outcomes fr bb k s) as [(q & s1 & Hq)|Hq];
      [apply Hincl; now left | | rewrite Hq; now right].
    pose proof (score_holds fr bb k s) as Hh. rewrite Hq in Hh |- *. simpl in Hh.
    destruct (IH s1) as [(qs & s2 & Hqs & Hlen)|Hqs].
    + destruct Hh as (K & _). rewrite K. intros x Hx. apply Hincl. now right.
    + left. exists (q :: qs), s2. rewrite Hqs. simpl. split; [reflexivity | congruence].
    + right. destruct (comprehension r (TrackerList.score fr bb) s1) as [[qs|e] s2];
        simpl in Hqs |- *; congruence.
Qed.

Lemma ingest_one_outcomes fr bb loc s :
  incl (TrackerList.to_remove loc) (dict_keys (TrackerList.d (fst s))) ->
  (exists loc' s', TrackerList.ingest_one fr bb loc s = (Ret loc', s')
                   /\ incl (TrackerList.to_remove loc') (TrackerList.to_remove loc))
  \/ fst (TrackerList.ingest_one fr bb loc s) = Raise ZeroDivisionError.
Proof.
  intro Hincl. unfold TrackerList.ingest_one, bind.
  destruct (@scores_outcomes fr bb (TrackerList.to_remove loc) s Hincl)
    as [(rmscore & [reg1 tr1] & Hrun & Hlen)|Hrun].
  - left. rewrite Hrun.
    assert (Hspawn : exists loc' s', TrackerList.spawn fr bb loc (reg1, tr1) = (Ret loc', s')
                       /\ incl (TrackerList.to_remove loc') (TrackerList.to_remove loc)).
    { rewrite spawn_run. do 2 eexists. split; [reflexivity | apply incl_refl]. }
    destruct (argmax rmscore) as [am|] eqn:Ham; [|exact Hspawn].
    apply argmax_bound in Ham.
    destruct (nth_error rmscore am) as [best|] eqn:Hb;
      [|apply nth_error_None in Hb; lia].
    destruct (Qlt_bool 7 best); [|exact Hspawn].
    destruct (nth_error (TrackerList.to_remove loc) am) as [idrm|] eqn:Hi;
      [|apply nth_error_None in Hi; lia].
    rewrite claim_run. do 2 eexists. split; [reflexivity | apply list_remove_incl].
  - right. destruct (comprehension _ _ s) as [[qs|e] s1]; simpl in Hrun |- *; congruence.
Qed.

Lemma ingest_loop_outcomes fr lbox : forall loc s,
  incl (TrackerList.to_remove loc) (dict_keys (TrackerList.d (fst s))) ->
  (exists loc' s', TrackerList.ingest_loop fr lbox loc s = (Ret loc', s'))
  \/ fst (TrackerList.ingest_loop fr lbox loc s) = Raise ZeroDivisionError.
Proof.
  induction lbox as [|bb r IH]; simpl; intros loc s Hincl.
  - left. unfold ret. eauto.
  - unfold bind. pose proof (ingest_one_keeps fr bb loc s) as Hk.
    destruct (@ingest_one_outcomes fr bb loc s Hincl) as [(loc1 & s1 & H1 & Hsub)|H1].
    + rewrite H1 in Hk |- *. simpl in Hk. destruct Hk as (K & _).
      apply IH. rewrite K. intros x Hx. apply Hincl, Hsub, Hx.
    + right. destruct (TrackerList.ingest_one fr bb loc s) as [[loc1|e] s1];
        simpl in H1 |- *; congruence.
Qed.

(** X7.  Whatever the registry and the detections, [ingest_detection]
    either returns or raises ZeroDivisionError, from the division of
    [iou]: it raises no KeyError and no IndexError.  When it raises, the
    live ids are those it was called with and the counter has not gone
    back (ids taken before the exception are lost). *)
Theorem ingest_detection_outcomes
  (fr : frame) (lbox : list rectangle) (reg : TrackerList.self) (tr : trace) :
  fst (TrackerList.ingest_detection fr lbox (reg, tr)) = Ret tt
  \/ (fst (TrackerList.ingest_detection fr lbox (reg, tr)) = Raise ZeroDivisionError
      /\ dict_keys (TrackerList.d (fst (snd (TrackerList.ingest_detection fr lbox (reg, tr)))))
         = dict_keys (TrackerList.d reg)
      /\ TrackerList.i reg
         <= TrackerList.i (fst (snd (TrackerList.ingest_detection fr lbox (reg, tr))))).
Proof.
  rewrite ingest_detection_unfold. cbn [fst].
  pose proof (@ingest_loop_keeps _ fr lbox
    {| TrackerList.to_remove := dict_keys (TrackerList.d reg);
       TrackerList.to_add := [] |} (reg, tr)) as Hk.
  destruct (@ingest_loop_outcomes fr lbox
    {| TrackerList.to_remove := dict_keys (TrackerList.d reg);
       TrackerList.to_add := [] |} (reg, tr) (incl_refl _))
    as [(loc & s' & Hrun)|Hrun].
  - left. now rewrite Hrun.
  - right. destruct (TrackerList.ingest_loop fr lbox _ (reg, tr)) as [[loc|e] s'];
      simpl in Hrun, Hk |- *; [discriminate|].
    destruct Hk as (K & I & _). injection Hrun as ->. auto.
Qed.

(** X8.  Two detection passes in a row, with the arithmetic of
    rectangles as in C10: the second pass drops every track of the first
    and the registry holds one new track per detection of the second
    pass, the ids going on from where the first pass stopped. *)
Theorem two_passes_ids_go_on
  (fr1 fr2 : frame) (l1 l2 : list rectangle) (reg : TrackerList.self) (tr : trace) :
  nonneg_areas -> intersection_within ->
  (forall bb, In bb (l1 ++ l2) -> 0 < rect_area bb) ->
  TrackerList.ingest_detection fr2 l2
    (snd (TrackerList.ingest_detection fr1 l1 (reg, tr)))
  = (Ret tt,
     ({| TrackerList.d :=
           spawned fr2 l2 (TrackerList.i reg + Z.of_nat (List.length l1));
         TrackerList.i :=
           TrackerList.i reg + Z.of_nat (List.length l1) + Z.of_nat (List.length l2) |},
      (tr ++ starts fr1 l1 (TrackerList.i reg))
      ++ starts fr2 l2 (TrackerList.i reg + Z.of_nat (List.length l1)))).
Proof.
  intros Hareas Hwithin Hpos.
  rewrite (@ingest_detection_lawful _ fr1 l1 reg tr Hareas Hwithin)
    by (intros bb Hbb; apply Hpos, in_or_app; now left).
  cbn [snd].
  etransitivity; [apply ingest_detection_lawful; try assumption | reflexivity].
  intros bb Hbb. apply Hpos, in_or_app. now right.
Qed.
End MorePasses.

(* ===================================================================== *)
(** ** The analysers of inaFaceGender.py *)
(* ===================================================================== *)

Section Batching.
Context `{P : Pipeline}.
Variable bl : nat.
Hypothesis bl_pos : (0 < bl)%nat.

Lemma add_detections_fold (iframe : Z) (fr : vframe) (dets : list detection) :
  forall loc,
  fold_left (GenderVideo.add_detection iframe fr) dets loc
  = {| GenderVideo.lbatch_img :=
         GenderVideo.lbatch_img loc ++ map (fun det => fst (preprocess_face fr det)) dets;
       GenderVideo.linfo :=
         GenderVideo.linfo loc
         ++ map (fun det => (iframe, snd (preprocess_face fr det), detection_conf det)) dets;
       GenderVideo.ldf := GenderVideo.ldf loc |}.
Proof.
  induction dets as [|det r IH]; intro loc; simpl.
  - rewrite !app_nil_r. now destruct loc.
  - rewrite IH. simpl. now rewrite <- !app_assoc.
Qed.

(** The loop that empties full batches: it ends within [fuel] tests when
    [fuel] exceeds the number of pending images, classifies batches of
    exactly [bl] images, keeps at most [bl] images pending, and keeps at
    least one if there was one. *)
Lemma flush_full_spec (fuel : nat) : forall loc,
  (List.length (GenderVideo.lbatch_img loc) < fuel)%nat ->
  exists full rest,
    GenderVideo.flush_full fuel bl loc
    = Some {| GenderVideo.lbatch_img := rest;
              GenderVideo.linfo := GenderVideo.linfo loc;
              GenderVideo.ldf := GenderVideo.ldf loc ++ map classifier full |}
    /\ Forall (fun b => List.length b = bl) full
    /\ concat full ++ rest = GenderVideo.lbatch_img loc
    /\ (List.length rest <= bl)%nat
    /\ (GenderVideo.lbatch_img loc <> [] -> rest <> []).
Proof.
  induction fuel as [|fuel IH]; intros loc Hfuel; [lia|].
  cbn [GenderVideo.flush_full].
  destruct (Nat.ltb_spec bl (List.length (GenderVideo.lbatch_img loc))) as [Hlt|Hle].
  - destruct (IH {| GenderVideo.lbatch_img := skipn bl (GenderVideo.lbatch_img loc);
                    GenderVideo.linfo := GenderVideo.linfo loc;
                    GenderVideo.ldf :=
                      GenderVideo.ldf loc
                      ++ [classifier (firstn bl (GenderVideo.lbatch_img loc))] |})
      as (full & rest & Hrun & Hfull & Hcat & Hlen & Hne).
    { cbn [GenderVideo.lbatch_img]. rewrite length_skipn. lia. }
    cbn [GenderVideo.lbatch_img GenderVideo.linfo GenderVideo.ldf] in *.
    exists (firstn bl (GenderVideo.lbatch_img loc) :: full), rest.
    split; [|split; [|split; [|split]]].
    + rewrite Hrun. cbn [map]. now rewrite <- app_assoc.
    + constructor; [|exact Hfull]. rewrite length_firstn. lia.
    + cbn [concat]. rewrite <- app_assoc, Hcat. apply firstn_skipn.
    + exact Hlen.
    + intros _. apply Hne. intro H0.
      apply (f_equal (@List.length image)) in H0. rewrite length_skipn in H0.
      simpl in H0. lia.
  - exists [], (GenderVideo.lbatch_img loc). cbn [map concat app].
    rewrite app_nil_r. destruct loc. cbn. repeat split; auto.
Qed.

Lemma all_images_cons (iframe : Z) (fr : vframe) (r : list (Z * vframe)) :
  GenderVideo.all_images ((iframe, fr) :: r)
  = map (fun det => fst (preprocess_face fr det)) (face_detector fr)
    ++ GenderVideo.all_images r.
Proof. reflexivity. Qed.

Lemma all_info_cons (iframe : Z) (fr : vframe) (r : list (Z * vframe)) :
  GenderVideo.all_info ((iframe, fr) :: r)
  = map (fun det => (iframe, snd (preprocess_face fr det), detection_conf det))
        (face_detector fr)
    ++ GenderVideo.all_info r.
Proof. reflexivity. Qed.

Lemma frames_loop_spec (fuel : nat) (frames : list (Z * vframe)) :
  forall loc done,
  (List.length (GenderVideo.lbatch_img loc)
   + List.length (GenderVideo.all_images frames) < fuel)%nat ->
  Forall (fun b => List.length b = bl) done ->
  GenderVideo.ldf loc = map classifier done ->
  (List.length (GenderVideo.lbatch_img loc) <= bl)%nat ->
  exists full rest,
    GenderVideo.frames_loop fuel bl frames loc
    = Some {| GenderVideo.lbatch_img := rest;
              GenderVideo.linfo := GenderVideo.linfo loc ++ GenderVideo.all_info frames;
              GenderVideo.ldf := map classifier (done ++ full) |}
    /\ Forall (fun b => List.length b = bl) full
    /\ concat full ++ rest
       = GenderVideo.lbatch_img loc ++ GenderVideo.all_images frames
    /\ (List.length rest <= bl)%nat
    /\ (GenderVideo.lbatch_img loc ++ GenderVideo.all_images frames <> [] -> rest <> []).
Proof.
  induction frames as [|[iframe fr] r IH]; intros loc done Hfuel Hdone Hldf Hlen.
  - exists [], (GenderVideo.lbatch_img loc).
    cbn [GenderVideo.frames_loop GenderVideo.all_images GenderVideo.all_info flat_map concat app].
    rewrite !app_nil_r, <- Hldf. destruct loc. cbn. repeat split; auto.
  - cbn [GenderVideo.frames_loop]. unfold GenderVideo.add_detections.
    rewrite add_detections_fold.
    rewrite all_images_cons in *. rewrite all_info_cons.
    rewrite length_app in Hfuel.
    set (imgs := map (fun det => fst (preprocess_face fr det)) (face_detector fr)) in *.
    set (infos := map (fun det => (iframe, snd (preprocess_face fr det), detection_conf det))
                      (face_detector fr)).
    destruct (@flush_full_spec fuel
                {| GenderVideo.lbatch_img := GenderVideo.lbatch_img loc ++ imgs;
                   GenderVideo.linfo := GenderVideo.linfo loc ++ infos;
                   GenderVideo.ldf := GenderVideo.ldf loc |})
      as (full1 & rest1 & Hrun1 & Hfull1 & Hcat1 & Hlen1 & Hne1).
    { cbn [GenderVideo.lbatch_img]. rewrite length_app. lia. }
    cbn [GenderVideo.lbatch_img GenderVideo.linfo GenderVideo.ldf] in *.
    rewrite Hrun1.
    destruct (IH {| GenderVideo.lbatch_img := rest1;
                    GenderVideo.linfo := GenderVideo.linfo loc ++ infos;
                    GenderVideo.ldf := GenderVideo.ldf loc ++ map classifier full1 |}
                 (done ++ full1))
      as (full2 & rest2 & Hrun2 & Hfull2 & Hcat2 & Hlen2 & Hne2).
    { cbn [GenderVideo.lbatch_img].
      apply (f_equal (@List.length image)) in Hcat1.
      rewrite !length_app in Hcat1. lia. }
    { apply Forall_app. split; assumption. }
    { cbn [GenderVideo.ldf]. now rewrite map_app, Hldf. }
    { exact Hlen1. }
    cbn [GenderVideo.lbatch_img GenderVideo.linfo GenderVideo.ldf] in *.
    exists (full1 ++ full2), rest2. split; [|split; [|split; [|split]]].
    + rewrite Hrun2. now rewrite <- !app_assoc.
    + apply Forall_app. split; assumption.
    + rewrite concat_app, <- app_assoc, Hcat2, app_assoc, Hcat1.
      now rewrite <- app_assoc.
    + exact Hlen2.
    + intro Hne. apply Hne2. intro H0. apply app_eq_nil in H0. destruct H0 as [H0 H1].
      destruct (GenderVideo.lbatch_img loc ++ imgs) eqn:Hpend.
      * apply Hne. apply app_eq_nil in Hpend. destruct Hpend as [-> ->]. exact H1.
      * apply Hne1; [discriminate | exact H0].
Qed.

(** X9.  [GenderVideo.__call__] with a batch length that is positive:
    the loop that empties full batches ends, and the classifier is called
    on consecutive pieces of the list of all face images of the video, in
    order, across the frames: every piece but the last has exactly
    [batch_len] images, the last has between 1 and [batch_len]; no image
    is classified twice or left out.  The rows of [linfo] are those of
    all the detections, and the result is the empty dataframe exactly
    when the video has no detection. *)
Theorem batches_cover_all_images (fuel : nat) (frames : list (Z * vframe)) :
  (List.length (GenderVideo.all_images frames) < fuel)%nat ->
  exists full last,
    GenderVideo.call fuel bl frames
    = Some (match last with
            | [] => GenderVideo.EmptyDataFrame
            | _ :: _ => GenderVideo.Joined (GenderVideo.all_info frames)
                          (map classifier (full ++ [last]))
            end)
    /\ Forall (fun b => List.length b = bl) full
    /\ (List.length last <= bl)%nat
    /\ concat full ++ last = GenderVideo.all_images frames
    /\ (last = [] <-> GenderVideo.all_images frames = [])
    /\ (last = [] -> full = []).
Proof.
  intro Hfuel.
  destruct (@frames_loop_spec fuel frames
              {| GenderVideo.lbatch_img := []; GenderVideo.linfo := [];
                 GenderVideo.ldf := [] |} [])
    as (full & rest & Hrun & Hfull & Hcat & Hlen & Hne); cbn; try lia; auto.
  cbn [GenderVideo.lbatch_img GenderVideo.linfo app] in *.
  assert (Hempty : rest = [] -> full = []).
  { intros ->. destruct (GenderVideo.all_images frames) eqn:Hall.
    - rewrite app_nil_r in Hcat. destruct full as [|b full']; [reflexivity|].
      inversion Hfull as [|? ? Hb _]; subst. cbn [concat] in Hcat.
      apply app_eq_nil in Hcat. destruct Hcat as [-> _]. simpl in bl_pos. lia.
    - exfalso. apply Hne; [discriminate | reflexivity]. }
  exists full, rest. split; [|split; [|split; [|split; [|split]]]]; auto.
  - unfold GenderVideo.call. rewrite Hrun.
    unfold GenderVideo.flush_rest, GenderVideo.assemble.
    cbn [GenderVideo.lbatch_img GenderVideo.linfo GenderVideo.ldf].
    destruct rest as [|x rest'].
    + rewrite (Hempty eq_refl). reflexivity.
    + cbn [List.length Nat.ltb Nat.leb]. cbn [GenderVideo.ldf GenderVideo.linfo].
      rewrite map_app. cbn [map]. rewrite length_app. cbn [List.length].
      replace (List.length (map classifier full) + 1)%nat
        with (S (List.length (map classifier full))) by lia.
      reflexivity.
  - split.
    + intros ->. rewrite (Hempty eq_refl) in Hcat. now rewrite <- Hcat.
    + intro Hall. destruct rest; [reflexivity|].
      rewrite Hall in Hcat. apply app_eq_nil in Hcat. destruct Hcat; discriminate.
Qed.
End Batching.

Section Analysers.
Context `{P : Pipeline}.

(** With a batch length of 0 and an image pending, the loop that empties
    full batches never ends. *)
Lemma flush_full_zero_never_ends (fuel : nat) : forall loc,
  GenderVideo.lbatch_img loc <> [] ->
  GenderVideo.flush_full fuel 0 loc = None.
Proof.
  induction fuel as [|fuel IH]; intros loc Hne; [reflexivity|].
  cbn [GenderVideo.flush_full].
  destruct (GenderVideo.lbatch_img loc) as [|x r] eqn:Hl; [congruence|].
  cbn [List.length Nat.ltb Nat.leb]. apply IH.
  cbn [GenderVideo.lbatch_img skipn]. discriminate.
Qed.

(** X10.  [pred_from_vid_and_bblist] fails its assertion exactly when
    the video yields fewer frames than there are boxes, with the number
    of boxes and the number of frames in its message; otherwise it
    classifies the first frames paired with the boxes in order, each
    alone, and ignores the frames beyond the last box. *)
Theorem pred_asserts_enough_frames
  (frames : list (Z * vframe)) (lbox : list (rect_tuple + Rect)) :
  (forall nb nf, GenderVideo.pred_from_vid_and_bblist frames lbox
                 = GenderVideo.AssertionError nb nf
     <-> (List.length frames < List.length lbox)%nat
         /\ nb = List.length lbox /\ nf = List.length frames)
  /\ (forall dfs, GenderVideo.pred_from_vid_and_bblist frames lbox
                  = GenderVideo.Predicted dfs
     <-> (List.length lbox <= List.length frames)%nat
         /\ dfs = map (fun p => FaceAnalyzer.classif_from_frame_and_bbox
                                  (snd (fst p)) (GenderVideo.as_Rect (snd p)))
                      (combine (firstn (List.length lbox) frames) lbox)).
Proof.
  unfold GenderVideo.pred_from_vid_and_bblist.
  rewrite length_map, length_combine.
  assert (Hcut : (List.length lbox <= List.length frames)%nat ->
                 combine (firstn (List.length lbox) frames) lbox = combine frames lbox).
  { clear. revert frames. induction lbox as [|b r IH]; intros [|f fs] Hle;
      simpl in *; try reflexivity; try lia. f_equal. apply IH. lia. }
  destruct (Nat.eqb_spec (Nat.min (List.length frames) (List.length lbox))
                         (List.length lbox)) as [Heq|Hneq].
  - split.
    + intros nb nf. split; [discriminate | lia].
    + intro dfs. split.
      * intro H. injection H as <-. split; [lia|]. rewrite Hcut by lia. reflexivity.
      * intros [Hle ->]. now rewrite Hcut.
  - split.
    + intros nb nf. split.
      * intro H. injection H as <- <-. lia.
      * intros (Hlt & -> & ->). f_equal. lia.
    + intro dfs. split; [discriminate | lia].
Qed.
End Analysers.

Section TrackingAnalyser.
Context `{E : Extern} `{P : Pipeline}.

End TrackingAnalyser.

(* ===================================================================== *)
(** ** Runs on the scripted instances *)
(* ===================================================================== *)

Section MoreOnScripted.
Import Scripted Scenario Lost ScriptedPipeline.






Lemma bb1_pos : 0 < @rect_area extern bb1.
Proof. reflexivity. Qed.

Lemma iou_zero_iff_no_overlap_witness :
  @nonneg_areas extern /\ 0 < @rect_area extern bb1
  /\ exists v, Tracker.iou track0 bb1 = Ret v
       /\ (0 <= v)%Q
       /\ (Tracker.intersect_area track0 bb1 = 0 -> (v == 0)%Q)
       /\ (0 < Tracker.intersect_area track0 bb1 -> (0 < v)%Q).
Proof.
  split; [exact scripted_nonneg|]. split; [exact bb1_pos|].
  exact (@iou_zero_iff_no_overlap extern track0 bb1 scripted_nonneg bb1_pos).
Defined.

Lemma two_passes_ids_go_on_witness :
  @nonneg_areas extern /\ @intersection_within extern
  /\ (forall bb, In bb ([bb1] ++ [bb2]) -> 0 < @rect_area extern bb)
  /\ TrackerList.ingest_detection frame1 [bb2]
       (snd (TrackerList.ingest_detection frame0 [bb1] (registry0, [])))
     = (Ret tt,
        ({| TrackerList.d :=
              spawned frame1 [bb2] (TrackerList.i registry0 + Z.of_nat (List.length [bb1]));
            TrackerList.i :=
              TrackerList.i registry0 + Z.of_nat (List.length [bb1])
              + Z.of_nat (List.length [bb2]) |},
         ([] ++ starts frame0 [bb1] (TrackerList.i registry0))
         ++ starts frame1 [bb2] (TrackerList.i registry0 + Z.of_nat (List.length [bb1])))).
Proof.
  split; [exact scripted_nonneg|]. split; [exact scripted_within|].
  split; [exact scenario_boxes_pos|].
  exact (@two_passes_ids_go_on extern frame0 frame1 [bb1] [bb2] registry0 []
           scripted_nonneg scripted_within scenario_boxes_pos).
Defined.

Lemma batch_len_pos : (0 < FaceAnalyzer.batch_len)%nat.
Proof. unfold FaceAnalyzer.batch_len. lia. Qed.

Lemma video_fuel : (List.length (@GenderVideo.all_images pipeline video) < 6)%nat.
Proof. simpl. lia. Qed.

Lemma batches_cover_all_images_witness :
  (0 < FaceAnalyzer.batch_len)%nat
  /\ (List.length (@GenderVideo.all_images pipeline video) < 6)%nat
  /\ exists full last,
    @GenderVideo.call pipeline 6 FaceAnalyzer.batch_len video
    = Some (match last with
            | [] => GenderVideo.EmptyDataFrame
            | _ :: _ => GenderVideo.Joined (GenderVideo.all_info video)
                          (map classifier (full ++ [last]))
            end)
    /\ Forall (fun b => List.length b = FaceAnalyzer.batch_len) full
    /\ (List.length last <= FaceAnalyzer.batch_len)%nat
    /\ concat full ++ last = GenderVideo.all_images video
    /\ (last = [] <-> GenderVideo.all_images video = [])
    /\ (last = [] -> full = []).
Proof.
  split; [exact batch_len_pos|]. split; [exact video_fuel|].
  exact (@batches_cover_all_images pipeline FaceAnalyzer.batch_len batch_len_pos 6 video
           video_fuel).
Defined.
End MoreOnScripted.
